(** * markicob: the actor state machine, the collision region builder and
      the obelisk occlusion rule

    The development embeds three pieces of the game:
    - [Player] (sprites/Player.ts): the flag-driven actor controller, its
      [update] tick and its animation-completion handler;
    - [MapScene.createCollisionObjects] and [MapScene.isPointInPolygon]
      (scenes/MapScene.ts): polygons turned into 16x16 static rectangles;
    - the depth-sorting loop of [MapScene.update]: the obelisk split rule,
      the stone sector rule and the default depth bands.

    A TypeScript [number] is an IEEE 754 binary64 value, so numbers are
    modelled by the kernel's primitive [float], whose [+ - * /], [<?] and
    [=?] are the binary64 operations JavaScript performs. *)

From Stdlib Require Import Bool List String ZArith Floats Lia DecimalString.
Import ListNotations.

Set Warnings "-inexact-float".

(** ** JavaScript numbers *)

Module JS.

Local Open Scope float_scope.

(** [a > b] on numbers: true exactly when [b < a] (false as soon as one
    side is NaN). *)
Definition gt (a b : float) : bool := b <? a.

(** [!v] for a value of type [number | undefined]: [undefined], [0], [-0]
    and [NaN] are the falsy ones. *)
Definition falsy (v : option float) : bool :=
  match v with
  | None => true
  | Some n => is_nan n || (n =? 0)
  end.

(** [Math.min(...l)], ECMA-262 21.3.2.25: start from +infinity; a NaN
    argument gives NaN; -0 is below +0. *)
Definition min_step (lowest n : float) : float :=
  if is_nan lowest || is_nan n then nan
  else if is_zero n && get_sign n && is_zero lowest && negb (get_sign lowest)
       then n
  else if n <? lowest then n else lowest.

Definition Math_min (l : list float) : float :=
  fold_left min_step l infinity.

(** [Math.max(...l)], ECMA-262 21.3.2.24: start from -infinity; a NaN
    argument gives NaN; +0 is above -0. *)
Definition max_step (highest n : float) : float :=
  if is_nan highest || is_nan n then nan
  else if is_zero n && negb (get_sign n) && is_zero highest && get_sign highest
       then n
  else if highest <? n then n else highest.

Definition Math_max (l : list float) : float :=
  fold_left max_step l neg_infinity.

(** [Math.floor(v)]: the largest integral number not above [v]; zeros,
    infinities and NaN are returned as they are.  A finite non-zero [v] is
    [(-1)^s * m * 2^e] with [m < 2^53]; for [e < 0] the integer part
    [m / 2^-e] is below [2^53], so [of_uint63] converts it exactly. *)
Definition Math_floor (v : float) : float :=
  match Prim2SF v with
  | S754_finite s m e =>
      if (0 <=? e)%Z then v
      else
        let q := Z.shiftr (Z.pos m) (- e) in
        let exact := (Z.shiftl q (- e) =? Z.pos m)%Z in
        let n := if s && negb exact then (q + 1)%Z else q in
        let f := of_uint63 (Uint63.of_Z n) in
        if s then - f else f
  | _ => v
  end.

End JS.

(** ** The actor: sprites/Player.ts *)

Module Player.

Local Open Scope string_scope.
Local Open Scope float_scope.

(** The Arcade physics body of the sprite, as far as [Player] touches it:
    [body.velocity] and [body.enable].  The constructor attaches the body
    ([scene.physics.add.existing(this)]), so [this.body] is never null and
    the [if (this.body)] tests of the class always succeed. *)
Record Body := mkBody {
  velocityX : float;
  velocityY : float;
  enable : bool
}.

(** The fields of a [Player] instance.  [anim] is the key of the animation
    last started with [this.play(key, true)]. *)
Record t := mk {
  x : float;
  y : float;
  flipX : bool;
  body : Body;
  anim : string;
  isMoving : bool;
  isAttacking : bool;
  isHurt : bool;
  isDead : bool;
  attackCooldown : float
}.

Definition speed : float := 150.

(** *** Field updates *)

Definition with_pos (px py : float) (p : t) : t :=
  mk px py (flipX p) (body p) (anim p)
     (isMoving p) (isAttacking p) (isHurt p) (isDead p) (attackCooldown p).

Definition with_flipX (b : bool) (p : t) : t :=
  mk (x p) (y p) b (body p) (anim p)
     (isMoving p) (isAttacking p) (isHurt p) (isDead p) (attackCooldown p).

Definition with_body (b : Body) (p : t) : t :=
  mk (x p) (y p) (flipX p) b (anim p)
     (isMoving p) (isAttacking p) (isHurt p) (isDead p) (attackCooldown p).

Definition with_anim (k : string) (p : t) : t :=
  mk (x p) (y p) (flipX p) (body p) k
     (isMoving p) (isAttacking p) (isHurt p) (isDead p) (attackCooldown p).

Definition with_isMoving (b : bool) (p : t) : t :=
  mk (x p) (y p) (flipX p) (body p) (anim p)
     b (isAttacking p) (isHurt p) (isDead p) (attackCooldown p).

Definition with_isAttacking (b : bool) (p : t) : t :=
  mk (x p) (y p) (flipX p) (body p) (anim p)
     (isMoving p) b (isHurt p) (isDead p) (attackCooldown p).

Definition with_isHurt (b : bool) (p : t) : t :=
  mk (x p) (y p) (flipX p) (body p) (anim p)
     (isMoving p) (isAttacking p) b (isDead p) (attackCooldown p).

Definition with_isDead (b : bool) (p : t) : t :=
  mk (x p) (y p) (flipX p) (body p) (anim p)
     (isMoving p) (isAttacking p) (isHurt p) b (attackCooldown p).

Definition with_attackCooldown (c : float) (p : t) : t :=
  mk (x p) (y p) (flipX p) (body p) (anim p)
     (isMoving p) (isAttacking p) (isHurt p) (isDead p) c.

(** *** The Phaser setters the class calls *)

Definition setVelocityX (v : float) (p : t) : t :=
  with_body (mkBody v (velocityY (body p)) (enable (body p))) p.

Definition setVelocityY (v : float) (p : t) : t :=
  with_body (mkBody (velocityX (body p)) v (enable (body p))) p.

(** [setVelocity(v)]: the second argument defaults to the first. *)
Definition setVelocity (v : float) (p : t) : t :=
  with_body (mkBody v v (enable (body p))) p.

Definition setBodyEnable (b : bool) (p : t) : t :=
  with_body (mkBody (velocityX (body p)) (velocityY (body p)) b) p.

Definition setFlipX (b : bool) (p : t) : t := with_flipX b p.

Definition setPosition (px py : float) (p : t) : t := with_pos px py p.

(** [this.play(key, true)]: afterwards [key] is the sprite's animation,
    whether it was started now or was already playing. *)
Definition play (key : string) (p : t) : t := with_anim key p.

(** *** Animation helpers *)

Definition flagged (p : t) : bool := isAttacking p || isHurt p || isDead p.

Definition atRest (p : t) : bool :=
  (velocityX (body p) =? 0) && (velocityY (body p) =? 0).

Definition playIdle (p : t) : t :=
  if flagged p then p
  else if atRest p then play "jiwatron-idle" p else p.

Definition playWalk (p : t) : t :=
  if flagged p then p
  else if negb (atRest p) then play "jiwatron-walk" p else p.

(** *** Movement *)

Definition moveLeft (p : t) : t :=
  with_isMoving true (setFlipX true (setVelocityX (- speed) p)).

Definition moveRight (p : t) : t :=
  with_isMoving true (setFlipX false (setVelocityX speed p)).

Definition moveUp (p : t) : t :=
  with_isMoving true (setVelocityY (- speed) p).

Definition moveDown (p : t) : t :=
  with_isMoving true (setVelocityY speed p).

Definition stopHorizontal (p : t) : t := setVelocityX 0 p.

Definition stopVertical (p : t) : t := setVelocityY 0 p.

(** *** Triggers *)

Definition attack (animationKey : string) (p : t) : t :=
  if isAttacking p || isHurt p || isDead p || (0 <? attackCooldown p) then p
  else play animationKey (setVelocity 0 (with_isAttacking true p)).

Definition playHurt (p : t) : t :=
  if isHurt p || isDead p then p
  else play "jiwatron-hurt" (setVelocity 0 (with_isHurt true p)).

Definition playDeath (p : t) : t :=
  if isDead p then p
  else play "jiwatron-death" (setVelocity 0 (with_isDead true p)).

(** [cx], [cy]: [this.scene.cameras.main.centerX / centerY]. *)
Definition resetCharacter (cx cy : float) (p : t) : t :=
  playIdle
    (setPosition cx cy
       (setBodyEnable true
          (with_attackCooldown 0
             (with_isAttacking false
                (with_isHurt false (with_isDead false p)))))).

(** *** The ANIMATION_COMPLETE handler *)

Definition handleAnimationComplete (key : string) (p : t) : t :=
  if String.prefix "jiwatron-attack" key then
    let p := with_isAttacking false p in
    if negb (isMoving p) then playIdle p else p
  else if String.eqb key "jiwatron-hurt" then
    playIdle (with_isHurt false p)
  else if String.eqb key "jiwatron-death" then
    setBodyEnable false (setVelocity 0 (with_isDead true p))
  else p.

(** *** One tick

    What the tick reads from its collaborators: [isDown] of the four
    movement keys, what [Phaser.Input.Keyboard.JustDown] answers for the
    six trigger keys, and the centre of the main camera. *)
Record Input := mkInput {
  isDown_W : bool;
  isDown_A : bool;
  isDown_S : bool;
  isDown_D : bool;
  JustDown_J : bool;
  JustDown_K : bool;
  JustDown_L : bool;
  JustDown_H : bool;
  JustDown_P : bool;
  JustDown_R : bool;
  centerX : float;
  centerY : float
}.

Definition tickCooldown (p : t) : t :=
  if 0 <? attackCooldown p
  then with_attackCooldown (attackCooldown p - 1) p
  else p.

Definition handleAttacks (i : Input) (p : t) : t :=
  if negb (isAttacking p) && negb (isHurt p) then
    if JustDown_J i then attack "jiwatron-attack1" p
    else if JustDown_K i then attack "jiwatron-attack2" p
    else if JustDown_L i then attack "jiwatron-attack3" p
    else p
  else p.

(** The local [let isMoving = false] of the movement block is threaded
    through the two key tests; it is not the field [this.isMoving]. *)
Definition handleMovement (i : Input) (p : t) : t :=
  if negb (isAttacking p) && negb (isHurt p) then
    let isMoving := false in
    let '(p, isMoving) :=
      if isDown_A i then (moveLeft p, true)
      else if isDown_D i then (moveRight p, true)
      else (stopHorizontal p, isMoving) in
    let '(p, isMoving) :=
      if isDown_W i then (moveUp p, true)
      else if isDown_S i then (moveDown p, true)
      else (stopVertical p, isMoving) in
    if isMoving then playWalk p else playIdle p
  else p.

Definition update (i : Input) (p : t) : t :=
  let p := tickCooldown p in
  if isDead p then
    if JustDown_R i then resetCharacter (centerX i) (centerY i) p else p
  else if JustDown_H i then playHurt p
  else if JustDown_P i then playDeath p
  else handleMovement i (handleAttacks i p).

(** *** Construction and runs *)

(** [new Player(scene, px, py)]: field initialisers, a fresh body at rest,
    then [this.playIdle()]. *)
Definition spawn (px py : float) : t :=
  playIdle (mk px py false (mkBody 0 0 true) "" false false false false 0).

(** What happens to an actor after construction: the scene calls
    [update], and the sprite's animation component emits
    ANIMATION_COMPLETE with the key of an animation. *)
Inductive Event :=
| Tick (i : Input)
| AnimationComplete (key : string).

Definition step (e : Event) (p : t) : t :=
  match e with
  | Tick i => update i p
  | AnimationComplete key => handleAnimationComplete key p
  end.

Definition run (evs : list Event) (p : t) : t :=
  fold_left (fun p e => step e p) evs p.

Inductive reachable : t -> Prop :=
| reach_spawn px py : reachable (spawn px py)
| reach_step e p : reachable p -> reachable (step e p).

(** *** Reading the five states off the flags

    The guards of [update] look at [isDead] first, then at [isHurt] and
    [isAttacking]; with no flag set the actor walks or idles according to
    its velocity. *)
Inductive ActorState := Idle | Walking | Attacking | Hurt | Dead.

Definition holds (s : ActorState) (p : t) : bool :=
  match s with
  | Dead => isDead p
  | Hurt => negb (isDead p) && isHurt p
  | Attacking => negb (isDead p) && negb (isHurt p) && isAttacking p
  | Walking => negb (flagged p) && negb (atRest p)
  | Idle => negb (flagged p) && atRest p
  end.

(** "No combined flags": at most one of the three flags is set. *)
Definition flagsExclusive (p : t) : bool :=
  negb (isAttacking p && isHurt p)
  && negb (isAttacking p && isDead p)
  && negb (isHurt p && isDead p).

Definition movementHeld (i : Input) : bool :=
  isDown_A i || isDown_D i || isDown_W i || isDown_S i.

(** A tick with no key down and no trigger pressed. *)
Definition noInput : Input :=
  mkInput false false false false false false false false false false 400 300.

End Player.

(** ** The level scene: scenes/MapScene.ts *)

Module MapScene.

Local Open Scope string_scope.
Local Open Scope list_scope.
Local Open Scope float_scope.

(** A polygon vertex [{x, y}]. *)
Record Point := mkPoint { x : float; y : float }.

(** A custom property of a Tiled object, [{ name, value }]. *)
Record Property := mkProperty { name : string; value : bool }.

(** A Tiled object of the object layer: [x], [y], [polygon] and
    [properties] are all optional in [Phaser.Types.Tilemaps.TiledObject]. *)
Record TiledObject := mkTiledObject {
  obj_x : option float;
  obj_y : option float;
  polygon : option (list Point);
  properties : option (list Property)
}.

(** [this.add.rectangle(x, y, width, height, ...)]: a rectangle given by its
    centre and its size. *)
Record Rectangle := mkRectangle {
  rect_x : float;
  rect_y : float;
  width : float;
  height : float
}.

(** *** isPointInPolygon

    [for (let i = 0, j = polygon.length - 1; i < polygon.length; j = i++)]:
    the loop state is [(j, inside)]; [polygon[i]] and [polygon[j]] are read
    by index. *)
Definition origin : Point := mkPoint 0 0.

Definition crosses (px py : float) (pi pj : Point) : bool :=
  negb (Bool.eqb (JS.gt (y pi) py) (JS.gt (y pj) py))
  && (px <? (x pj - x pi) * (py - y pi) / (y pj - y pi) + x pi).

Definition edgeStep (px py : float) (polygon : list Point)
  (st : nat * bool) (i : nat) : nat * bool :=
  let '(j, inside) := st in
  (i, if crosses px py (nth i polygon origin) (nth j polygon origin)
      then negb inside else inside).

Definition isPointInPolygon (px py : float) (polygon : list Point) : bool :=
  snd (fold_left (edgeStep px py polygon)
         (seq 0 (List.length polygon)) (List.length polygon - 1, false)%nat).

(** *** Loops over numbers

    [for (let v = lo; v < hi; v += step) body(v)], run for at most [fuel]
    iterations.  The result carries what the loop has built and whether the
    loop ran to its end ([true]) or the budget ran out first ([false]); a body
    that did not finish stops the loop. *)
Fixpoint forLoop {St : Type} (fuel : nat) (v hi step : float)
  (body : float -> St -> St * bool) (s : St) : St * bool :=
  match fuel with
  | O => (s, false)
  | S fuel' =>
      if v <? hi then
        match body v s with
        | (s', true) => forLoop fuel' (v + step) hi step body s'
        | (s', false) => (s', false)
        end
      else (s, true)
  end.

(** *** createCollisionObjects *)

Definition rectSize : float := 16.

(** The filter on the layer's objects: [obj.polygon] is present and
    [obj.properties?.some(p => p.name === 'collides' && p.value === true)]. *)
Definition collides (obj : TiledObject) : bool :=
  match polygon obj, properties obj with
  | Some _, Some ps =>
      existsb (fun p => String.eqb (name p) "collides" && value p) ps
  | _, _ => false
  end.

(** The body of the innermost loop: the cell at grid position [(gx, gy)] is
    pushed when its centre tests inside. *)
Definition pushCell (size : float) (points : list Point) (gx gy : float)
  (collisionRects : list Rectangle) : list Rectangle :=
  let rectCenterX := gx + size / 2 in
  let rectCenterY := gy + size / 2 in
  if isPointInPolygon rectCenterX rectCenterY points
  then collisionRects ++ [mkRectangle rectCenterX rectCenterY size size]
  else collisionRects.

(** Bounding box and the two nested loops, for cells of side [size]. *)
Definition gridRects (size : float) (fuel : nat) (points : list Point)
  : list Rectangle * bool :=
  let minX := JS.Math_min (map x points) in
  let maxX := JS.Math_max (map x points) in
  let minY := JS.Math_min (map y points) in
  let maxY := JS.Math_max (map y points) in
  forLoop fuel minX maxX size
    (fun gx rects =>
       forLoop fuel minY maxY size
         (fun gy rects => (pushCell size points gx gy rects, true)) rects)
    [].

(** The points of an object in scene coordinates:
    [obj.polygon.map(p => ({ x: obj.x + p.x, y: obj.y + p.y }))]. *)
Definition scenePoints (ox oy : float) (poly : list Point) : list Point :=
  map (fun p => mkPoint (ox + x p) (oy + y p)) poly.

(** The [forEach] callback: the rectangles one polygon object contributes. *)
Definition convertPolygon (fuel : nat) (obj : TiledObject)
  : list Rectangle * bool :=
  if JS.falsy (obj_x obj) || JS.falsy (obj_y obj) then ([], true)
  else
    match obj_x obj, obj_y obj, polygon obj with
    | Some ox, Some oy, Some poly =>
        gridRects rectSize fuel (scenePoints ox oy poly)
    | _, _, _ => ([], true)
    end.

(** [polygons.forEach(...)], accumulating [this.collisionObjects]. *)
Fixpoint convertAll (fuel : nat) (polygons : list TiledObject)
  (collisionObjects : list Rectangle) : list Rectangle * bool :=
  match polygons with
  | [] => (collisionObjects, true)
  | obj :: rest =>
      match convertPolygon fuel obj with
      | (rects, true) => convertAll fuel rest (collisionObjects ++ rects)
      | (rects, false) => (collisionObjects ++ rects, false)
      end
  end.

(** [layer] is [this.map.getObjectLayer('collision')]: [None] when the map
    has no such layer. *)
Definition createCollisionObjects (fuel : nat)
  (layer : option (list TiledObject)) : list Rectangle * bool :=
  match layer with
  | None => ([], true)
  | Some objects => convertAll fuel (filter collides objects) []
  end.

(** *** Depth sorting in update *)

Record Sprite := mkSprite {
  texture_key : string;
  sprite_x : float;
  sprite_y : float;
  depth : float;
  alpha : float
}.

Definition setAlpha (a : float) (s : Sprite) : Sprite :=
  mkSprite (texture_key s) (sprite_x s) (sprite_y s) (depth s) a.

Definition setDepth (d : float) (s : Sprite) : Sprite :=
  mkSprite (texture_key s) (sprite_x s) (sprite_y s) d (alpha s).

Definition obeliskPhysicsY : float := 500.
Definition obeliskHeight : float := 256.
Definition splitPoint : float := obeliskPhysicsY + (obeliskHeight * 0.65).

Definition stoneSectorWidth : float := 259.
Definition stoneSectorHeight : float := 500.

(** [this.player ? this.player.x : 0] and its [y] twin. *)
Definition playerX (player : option Player.t) : float :=
  match player with Some p => Player.x p | None => 0 end.

Definition playerY (player : option Player.t) : float :=
  match player with Some p => Player.y p | None => 0 end.

(** The callback applied to each child of [depthSortedObjects]. *)
Definition depthSort (player : option Player.t) (sprite : Sprite) : Sprite :=
  if String.prefix "obelisk_tower" (texture_key sprite) then
    if playerY player <? splitPoint
    then setAlpha 0.6 (setDepth 1000 sprite)
    else setAlpha 1.0 (setDepth 50 sprite)
  else if String.prefix "stone_sector" (texture_key sprite) then
    let sprite := setDepth 1000 sprite in
    let boxLeft := sprite_x sprite in
    let boxRight := sprite_x sprite + stoneSectorWidth in
    let boxTop := sprite_y sprite - stoneSectorHeight in
    let boxBottom := sprite_y sprite in
    let playerInBox :=
      (boxLeft <=? playerX player) && (playerX player <=? boxRight)
      && (boxTop <=? playerY player) && (playerY player <=? boxBottom) in
    if playerInBox
    then setAlpha 0.7 sprite
    else setAlpha 1.0 sprite
  else setDepth (JS.Math_floor (sprite_y sprite / 32)) sprite.

(** The scene state [update] works on.  [player.setDepth(200)] writes the
    player sprite's own depth, kept here as [playerDepth]. *)
Record Scene := mkScene {
  player : option Player.t;
  playerDepth : float;
  depthSortedObjects : list Sprite
}.

Definition update (i : Player.Input) (sc : Scene) : Scene :=
  let '(pl, pd) :=
    match player sc with
    | Some p => (Some (Player.update i p), 200)
    | None => (None, playerDepth sc)
    end in
  mkScene pl pd (map (depthSort pl) (depthSortedObjects sc)).

End MapScene.


(** ** Vocabulary of the statements *)

Module PlayerSpec.

Import Player.
Local Open Scope string_scope.
Local Open Scope float_scope.

(** What every reachable actor satisfies: the cooldown counter is zero, an
    actor with a flag set is at rest, and the body is only disabled on a dead
    actor. *)
Record Inv (p : t) : Prop := mkInv {
  inv_cooldown : attackCooldown p = 0;
  inv_rest : flagged p = true -> atRest p = true;
  inv_enable : enable (body p) = false -> isDead p = true
}.

(** The animation key the attack keys of a tick select, in the order
    [update] tests them. *)
Definition attackKey (i : Input) : option string :=
  if JustDown_J i then Some "jiwatron-attack1"
  else if JustDown_K i then Some "jiwatron-attack2"
  else if JustDown_L i then Some "jiwatron-attack3"
  else None.

(** The two axis steps of the movement block, before the animation is
    chosen. *)
Definition steer (i : Input) (p : t) : t :=
  let p := if isDown_A i then moveLeft p
           else if isDown_D i then moveRight p
           else stopHorizontal p in
  if isDown_W i then moveUp p
  else if isDown_S i then moveDown p
  else stopVertical p.

(** No tick of the run presses Reset. *)
Definition noReset (evs : list Event) : bool :=
  forallb (fun e => match e with
                    | Tick i => negb (JustDown_R i)
                    | AnimationComplete _ => true
                    end) evs.

(** What a dead actor keeps across one event that is not a Reset. *)
Record DeadAtRest (p : t) : Prop := mkDeadAtRest {
  dead_flag : isDead p = true;
  dead_vx : velocityX (body p) = 0;
  dead_vy : velocityY (body p) = 0
}.

(** Ticks used in the examples. *)
Definition pressJ : Input :=
  mkInput false false false false true false false false false false 400 300.
Definition pressH : Input :=
  mkInput false false false false false false false true false false 400 300.
Definition pressP : Input :=
  mkInput false false false false false false false false true false 400 300.
Definition holdD : Input :=
  mkInput false false false true false false false false false false 400 300.
Definition holdD_pressJ : Input :=
  mkInput false false false true true false false false false false 400 300.
Definition pressR : Input :=
  mkInput false false false false false false false false false true 400 300.

(** A tick that carries neither the hurt nor the death trigger. *)
Definition quiet (i : Input) : bool :=
  negb (JustDown_H i) && negb (JustDown_P i).

(** A run from [p] in which every tick is quiet and every completion event
    carries the key of the animation the sprite has at that moment (an
    animation that was replaced by another [play] does not complete). *)
Fixpoint quietRun (evs : list Event) (p : t) : bool :=
  match evs with
  | [] => true
  | Tick i :: evs' => quiet i && quietRun evs' (update i p)
  | AnimationComplete key :: evs' =>
      String.eqb key (anim p) && quietRun evs' (handleAnimationComplete key p)
  end.

(** The actor after spawn, J, H and the completion of the hurt animation. *)
Definition stuckActor : t :=
  run [Tick pressJ; Tick pressH; AnimationComplete "jiwatron-hurt"]
    (spawn 400 300).

(** Actors used in the examples: walking right after spawn; in the middle
    of attack 1 after having walked; hurt after having walked; dead far from
    the camera centre. *)
Definition walkingActor : t := run [Tick holdD] (spawn 400 300).
Definition attackingActor : t := run [Tick holdD; Tick pressJ] (spawn 400 300).
Definition hurtActor : t := run [Tick holdD; Tick pressH] (spawn 400 300).
Definition deadActor : t := run [Tick holdD; Tick pressP] (spawn 100 100).

(** What happens to a dead actor in the example: keys, a stray completion
    and more keys, but no Reset. *)
Definition afterDeath : list Event :=
  [Tick holdD; AnimationComplete "jiwatron-walk"; Tick pressJ].

End PlayerSpec.

Module MapSceneSpec.

Import MapScene.
Local Open Scope string_scope.
Local Open Scope list_scope.
Local Open Scope float_scope.

(** The centre of a rectangle tests inside [points]. *)
Definition centreInside (points : list Point) (c : Rectangle) : Prop :=
  isPointInPolygon (rect_x c) (rect_y c) points = true.

(** [c] is a [rectSize] cell whose centre tests inside the scene polygon of
    one of the collidable, anchored objects of [objects]. *)
Definition producedBy (objects : list TiledObject) (c : Rectangle) : Prop :=
  exists obj ox oy poly,
    In obj objects /\ collides obj = true
    /\ obj_x obj = Some ox /\ obj_y obj = Some oy /\ polygon obj = Some poly
    /\ centreInside (scenePoints ox oy poly) c
    /\ width c = rectSize /\ height c = rectSize.

Definition centre (c : Rectangle) : float * float := (rect_x c, rect_y c).

(** The loop variable after [n] increments by [step]. *)
Fixpoint advance (n : nat) (v step : float) : float :=
  match n with
  | O => v
  | S n' => advance n' (v + step) step
  end.

(** After [n] increments from [lo] the guard [v < hi] of a loop is false. *)
Definition leaves (n : nat) (lo hi step : float) : bool :=
  negb (advance n lo step <? hi).

(** The 32 by 32 square: its vertices in scene coordinates, and the same
    square as Tiled objects anchored at (32, 32) and at the origin. *)
Definition square : list Point :=
  [mkPoint 0 0; mkPoint 32 0; mkPoint 32 32; mkPoint 0 32].

Definition collidesTrue : option (list Property) :=
  Some [mkProperty "collides" true].

Definition squareAt32 : TiledObject :=
  mkTiledObject (Some 32) (Some 32)
    (Some [mkPoint (-32) (-32); mkPoint 0 (-32); mkPoint 0 0; mkPoint (-32) 0])
    collidesTrue.

Definition squareAtOrigin : TiledObject :=
  mkTiledObject (Some 0) (Some 0) (Some square) collidesTrue.

Definition squareCells : list Rectangle :=
  [mkRectangle 8 8 16 16; mkRectangle 8 24 16 16;
   mkRectangle 24 8 16 16; mkRectangle 24 24 16 16].

(** The actor's position lies in the footprint of a stone sector sprite:
    259 wide to the right of the sprite's [x], 500 high above its [y]. *)
Definition inFootprint (player : option Player.t) (sprite : Sprite) : bool :=
  (sprite_x sprite <=? playerX player)
  && (playerX player <=? sprite_x sprite + 259)
  && (sprite_y sprite - 500 <=? playerY player)
  && (playerY player <=? sprite_y sprite).

(** An actor standing at height [py], and an obelisk sprite. *)
Definition actorAt (py : float) : Player.t :=
  Player.with_pos 400 py (Player.spawn 400 300).

Definition obelisk : Sprite := mkSprite "obelisk_tower1" 480 749.667 0 1.

Definition stoneSector : Sprite := mkSprite "stone_sector_2" 300 600 0 1.

(** A scene with the actor standing exactly on the split line. *)
Definition sceneAtSplit : Scene :=
  mkScene (Some (actorAt 666.4)) 0 [obelisk; stoneSector].

End MapSceneSpec.

(** ** More of the code: animations, scenery objects and controls *)

Module JSOps.

Local Open Scope float_scope.

(** [v || d] for [v : number | undefined]. *)
Definition orElse (v : option float) (d : float) : float :=
  match v with
  | Some n => if JS.falsy (Some n) then d else n
  | None => d
  end.

(** [v === c] for [v : number | undefined] and a number [c]. *)
Definition strictEq (v : option float) (c : float) : bool :=
  match v with
  | Some n => n =? c
  | None => false
  end.

(** [v && v >= lo && v <= hi] for [v : number | undefined]. *)
Definition truthyBetween (v : option float) (lo hi : float) : bool :=
  match v with
  | Some n => negb (JS.falsy (Some n)) && (lo <=? n) && (n <=? hi)
  | None => false
  end.

(** A string used as a condition: the empty string is the falsy one. *)
Definition truthyString (s : string) : bool := negb (String.eqb s "").

(** The template literal [`${base}${n}`] for a counter [n]. *)
Definition numbered (base : string) (n : nat) : string :=
  String.append base (NilEmpty.string_of_uint (Nat.to_uint n)).

End JSOps.

(** *** scenes/PreloaderScene.ts: the actor's animations *)

Module PreloaderScene.

Local Open Scope string_scope.
Local Open Scope list_scope.
Local Open Scope float_scope.

(** One [this.anims.create({...})] call of [createJiwatronAnimations]: the
    key, the arguments of [generateFrameNames], the frame rate and the
    repeat count (-1 loops for ever, 0 plays once). *)
Record Animation := mkAnimation {
  key : string;
  frame_prefix : string;
  frame_start : float;
  frame_end : float;
  frame_suffix : string;
  frameRate : float;
  repeat : float
}.

Definition createJiwatronAnimations : list Animation :=
  [ mkAnimation "jiwatron-idle" "Jiwatron #Idle " 0 5 ".aseprite" 10 (-1);
    mkAnimation "jiwatron-walk" "Jiwatron #Walk " 0 7 ".aseprite" 10 (-1);
    mkAnimation "jiwatron-attack1" "Jiwatron #Attack01 " 0 6 ".aseprite" 12 0;
    mkAnimation "jiwatron-attack2" "Jiwatron #Attack02 " 0 10 ".aseprite" 12 0;
    mkAnimation "jiwatron-attack3" "Jiwatron #Attack03 " 0 8 ".aseprite" 12 0;
    mkAnimation "jiwatron-hurt" "Jiwatron #Hurt " 0 3 ".aseprite" 10 0;
    mkAnimation "jiwatron-death" "Jiwatron #Death " 0 3 ".aseprite" 10 0 ].

(** [for (let i = 1; i <= n; i++) this.load.image(`${base}${i}`, ...)]: the
    texture keys one loop of [preload] registers. *)
Definition imageKeys (base : string) (n : nat) : list string :=
  map (fun i => JSOps.numbered base i) (seq 1 n).

(** The image keys [preload] loads, in the order of its four loops. *)
Definition preloadImages : list string :=
  imageKeys "water_fall" 8 ++ imageKeys "bridge_building" 8
  ++ imageKeys "obelisk_tower" 8 ++ imageKeys "arcade_building" 16.

End PreloaderScene.

(** *** scenes/MapScene.ts: the animated scenery *)

Module MapObjects.

Local Open Scope string_scope.
Local Open Scope list_scope.
Local Open Scope float_scope.

(** The image keys [MapScene.preload] loads, in the order of its four
    loops. *)
Definition preloadImages : list string :=
  PreloaderScene.imageKeys "water_fall" 8
  ++ PreloaderScene.imageKeys "armory_blacksmith" 6
  ++ PreloaderScene.imageKeys "plant_tree" 8
  ++ PreloaderScene.imageKeys "stone_sector" 3.

(** The fields of a Tiled object that [createAnimatedSprite] reads. *)
Record TileObject := mkTileObject {
  gid : option float;
  x : option float;
  y : option float;
  width : option float;
  height : option float
}.

(** One [this.anims.create({...})] call of [createAnimatedObjects]; the
    frames are [Array.from({ length: n }, (_, i) => ({ key: `${base}${i + 1}` }))]. *)
Record SceneAnimation := mkSceneAnimation {
  key : string;
  frames : list string;
  frameRate : float;
  repeat : float
}.

Definition frameKeys (base : string) (length : nat) : list string :=
  map (fun i => JSOps.numbered base (i + 1)) (seq 0 length).

Definition sceneAnimations : list SceneAnimation :=
  [ mkSceneAnimation "water_fall_anim" (frameKeys "water_fall" 8) 10 (-1);
    mkSceneAnimation "bridge_building_anim" (frameKeys "bridge_building" 8)
      10 (-1);
    mkSceneAnimation "obelisk_tower_anim" (frameKeys "obelisk_tower" 8)
      10 (-1);
    mkSceneAnimation "arcade_building_anim" (frameKeys "arcade_building" 16)
      10 (-1);
    mkSceneAnimation "armory_blacksmith_anim"
      (frameKeys "armory_blacksmith" 6) 10 (-1);
    mkSceneAnimation "plant_tree_anim" (frameKeys "plant_tree" 8) 10 (-1) ].

(** The [if / else if] chain on [obj.gid]: the values left in [animKey] and
    [initialFrame]. *)
Definition selectFrame (g : option float) : string * string :=
  if JSOps.strictEq g 11169 then ("water_fall_anim", "water_fall1")
  else if JSOps.strictEq g 11177
       then ("bridge_building_anim", "bridge_building1")
  else if JSOps.strictEq g 11185 then ("obelisk_tower_anim", "obelisk_tower1")
  else if JSOps.strictEq g 11193
       then ("arcade_building_anim", "arcade_building1")
  else if JSOps.strictEq g 11209
       then ("armory_blacksmith_anim", "armory_blacksmith1")
  else if JSOps.truthyBetween g 11215 11221
       then ("plant_tree_anim", "plant_tree1")
  else if JSOps.truthyBetween g 11223 11225 then
    if JSOps.strictEq g 11223 then ("", "stone_sector2")
    else if JSOps.strictEq g 11224 then ("", "stone_sector3")
    else if JSOps.strictEq g 11225 then ("", "stone_sector1")
    else ("", "")
  else ("", "").

(** A sprite as [createAnimatedSprite] leaves it: [this.add.sprite(x, y,
    initialFrame)] (depth 0 and alpha 1, as Phaser creates game objects),
    [setOrigin(0, 1)], [setDisplaySize(w, h)] and, for an animated sprite,
    [play(animKey)]. *)
Record NewSprite := mkNewSprite {
  sprite : MapScene.Sprite;
  originX : float;
  originY : float;
  displayWidth : float;
  displayHeight : float;
  playing : option string
}.

Definition createAnimatedSprite (obj : TileObject) : option NewSprite :=
  let '(animKey, initialFrame) := selectFrame (gid obj) in
  let placed :=
    MapScene.mkSprite initialFrame
      (JSOps.orElse (x obj) 0) (JSOps.orElse (y obj) 0) 0 1 in
  if JSOps.truthyString animKey && JSOps.truthyString initialFrame then
    Some (mkNewSprite placed 0 1
            (JSOps.orElse (width obj) 0) (JSOps.orElse (height obj) 0)
            (Some animKey))
  else if JSOps.truthyString initialFrame then
    Some (mkNewSprite placed 0 1
            (JSOps.orElse (width obj) 0) (JSOps.orElse (height obj) 0)
            None)
  else None.

Definition setDepth (d : float) (s : NewSprite) : NewSprite :=
  mkNewSprite (MapScene.setDepth d (sprite s)) (originX s) (originY s)
    (displayWidth s) (displayHeight s) (playing s).

(** The sprites one object layer gives, in the order of its objects. *)
Definition spritesOf (layer : option (list TileObject)) : list NewSprite :=
  match layer with
  | None => []
  | Some objects =>
      flat_map (fun obj => match createAnimatedSprite obj with
                           | Some s => [s]
                           | None => []
                           end) objects
  end.

(** The two groups [createAnimatedObjects] fills: [animatedObjects] from
    the layer 'animation_object', each at the fixed depth 5, and
    [depthSortedObjects] from the layer 'animation_object2'. *)
Definition createAnimatedObjects
  (objectLayer1 objectLayer2 : option (list TileObject))
  : list NewSprite * list NewSprite :=
  (map (setDepth 5) (spritesOf objectLayer1), spritesOf objectLayer2).

(** The texture keys a sprite shows over time: the frames of the animation
    it plays, or its one texture when it plays none. *)
Definition framesOf (animKey : string) : list string :=
  match find (fun a => String.eqb (key a) animKey) sceneAnimations with
  | Some a => frames a
  | None => []
  end.

Definition shownKeys (s : NewSprite) : list string :=
  match playing s with
  | Some animKey => framesOf animKey
  | None => [MapScene.texture_key (sprite s)]
  end.

(** [createPlayer]: the actor is built at the centre of the map and given
    depth 10. *)
Definition createPlayer (widthInPixels heightInPixels : float)
  : Player.t * float :=
  (Player.spawn (widthInPixels / 2) (heightInPixels / 2), 10).

End MapObjects.

(** *** scenes/MapScene.ts: the keyboard controls *)

Module MapControls.

Local Open Scope list_scope.
Local Open Scope float_scope.

(** What the key handlers of [setupControls] read and write: the camera
    zoom, the flag [debugCollisions], the [visible] bit of every collision
    object, of every debug graphic and of the collision layer (when the map
    has one), and the two debug fields of the actor's body. *)
Record Controls := mkControls {
  zoom : float;
  debugCollisions : bool;
  collisionObjects : list bool;
  debugGraphics : list bool;
  collisionLayer : option bool;
  debugShowBody : bool;
  debugBodyColor : float
}.

(** The scene after [create]: zoom 2.5, everything hidden, the body's debug
    colour 0x00ffff. *)
Definition created (nObjects nGraphics : nat) (hasLayer : bool) : Controls :=
  mkControls 2.5 false (repeat false nObjects) (repeat false nGraphics)
    (if hasLayer then Some false else None) false 0x00ffff.

Definition setVisible (v : bool) (l : list bool) : list bool :=
  map (fun _ => v) l.

Definition zoomIn (c : Controls) : Controls :=
  let newZoom := zoom c + 0.1 in
  mkControls (JS.Math_min [newZoom; 4]) (debugCollisions c)
    (collisionObjects c) (debugGraphics c) (collisionLayer c)
    (debugShowBody c) (debugBodyColor c).

Definition zoomOut (c : Controls) : Controls :=
  let newZoom := zoom c - 0.1 in
  mkControls (JS.Math_max [newZoom; 1]) (debugCollisions c)
    (collisionObjects c) (debugGraphics c) (collisionLayer c)
    (debugShowBody c) (debugBodyColor c).

(** The handler of the C key. *)
Definition toggleCollisionDebug (c : Controls) : Controls :=
  let d := negb (debugCollisions c) in
  mkControls (zoom c) d (setVisible d (collisionObjects c))
    (debugGraphics c) (collisionLayer c)
    (debugShowBody c) (debugBodyColor c).

Definition toggleCollisionRectangles (c : Controls) : Controls :=
  let d := negb (debugCollisions c) in
  mkControls (zoom c) d (setVisible d (collisionObjects c))
    (setVisible d (debugGraphics c)) (collisionLayer c)
    (debugShowBody c) (debugBodyColor c).

Definition togglePhysicsDebug (c : Controls) : Controls :=
  let d := negb (debugCollisions c) in
  mkControls (zoom c) d (setVisible d (collisionObjects c))
    (setVisible d (debugGraphics c))
    (match collisionLayer c with Some _ => Some d | None => None end)
    true 0xff00ff.

(** The keys with a handler that changes the state; F (fullscreen), I and
    B (console output) touch nothing recorded here. *)
Inductive Key := PLUS | MINUS | C | P | R | F | I | B.

Definition keyDown (k : Key) (c : Controls) : Controls :=
  match k with
  | PLUS => zoomIn c
  | MINUS => zoomOut c
  | C => toggleCollisionDebug c
  | P => togglePhysicsDebug c
  | R => toggleCollisionRectangles c
  | F | I | B => c
  end.

Definition press (keys : list Key) (c : Controls) : Controls :=
  fold_left (fun c k => keyDown k c) keys c.

End MapControls.

(** *** Vocabulary of the further statements *)

Module MoreSpec.

Local Open Scope string_scope.
Local Open Scope list_scope.
Local Open Scope float_scope.

(** The gids [createAnimatedSprite] tests by equality, and the test that a
    gid is one of them or lies in the plant range. *)
Definition listedGids : list float :=
  [11169; 11177; 11185; 11193; 11209; 11223; 11224; 11225].

Definition knownGid (g : float) : bool :=
  existsb (fun c => g =? c) listedGids || ((11215 <=? g) && (g <=? 11221)).

Definition stoneGid (g : float) : bool :=
  (g =? 11223) || (g =? 11224) || (g =? 11225).

(** Membership in a list of numbers, by the bit pattern. *)
Definition memFloat (z : float) (l : list float) : bool :=
  existsb (PrimFloat.Leibniz.eqb z) l.

Definition stepZoomIn (z : float) : float := JS.Math_min [z + 0.1; 4].
Definition stepZoomOut (z : float) : float := JS.Math_max [z - 0.1; 1].

(** The zoom levels reached from 2.5: each round adds the successors of the
    levels found so far. *)
Fixpoint zoomClosure (rounds : nat) (seen : list float) : list float :=
  match rounds with
  | O => seen
  | S rounds' =>
      zoomClosure rounds'
        (fold_left (fun acc z => if memFloat z acc then acc else acc ++ [z])
           (flat_map (fun z => [stepZoomIn z; stepZoomOut z]) seen) seen)
  end.

Definition zoomLevels : list float :=
  Eval vm_compute in zoomClosure 60 [2.5].

(** The keys whose handler flips [debugCollisions], and how many of them a
    key sequence holds. *)
Definition isToggle (k : MapControls.Key) : bool :=
  match k with
  | MapControls.C | MapControls.P | MapControls.R => true
  | _ => false
  end.

Definition toggleCount (keys : list MapControls.Key) : nat :=
  List.length (filter isToggle keys).

(** A key sequence contains P. *)
Definition pressedP (keys : list MapControls.Key) : bool :=
  existsb (fun k => match k with MapControls.P => true | _ => false end) keys.

(** A velocity component after an event, against the one before it: left
    as it was, or set to 0, 150 or -150. *)
Definition speedLevel (old v : float) : Prop :=
  v = old \/ v = 0 \/ v = 150 \/ v = -150.

Definition velocityLevels (o p : Player.t) : Prop :=
  speedLevel (Player.velocityX (Player.body o))
    (Player.velocityX (Player.body p))
  /\ speedLevel (Player.velocityY (Player.body o))
       (Player.velocityY (Player.body p)).

(** An actor in the middle of an attack or of the hurt animation. *)
Definition busy (p : Player.t) : bool :=
  negb (Player.isDead p) && (Player.isAttacking p || Player.isHurt p).

(** An object whose gid is known, and the objects of a layer that may be
    missing. *)
Definition knownObject (obj : MapObjects.TileObject) : bool :=
  match MapObjects.gid obj with Some g => knownGid g | None => false end.

Definition layerObjects (layer : option (list MapObjects.TileObject))
  : list MapObjects.TileObject :=
  match layer with Some objects => objects | None => [] end.

(** [createAnimatedSprite] takes its stone branch for this gid. *)
Definition stoneObject (g : option float) : bool :=
  match g with Some g => stoneGid g | None => false end.

(** A sprite while its animation shows the texture [k]. *)
Definition showing (k : string) (s : MapScene.Sprite) : MapScene.Sprite :=
  MapScene.mkSprite k (MapScene.sprite_x s) (MapScene.sprite_y s)
    (MapScene.depth s) (MapScene.alpha s).

(** The images the two scenes have loaded when the map is created. *)
Definition loadedImages : list string :=
  PreloaderScene.preloadImages ++ MapObjects.preloadImages.

Definition memString (k : string) (l : list string) : bool :=
  existsb (String.eqb k) l.

(** The check made on the frames of a sprite: each key is loaded and falls
    under the branches of [MapScene.update] as [isObelisk] and [isStone]
    say, and the first key is the texture the sprite was created with. *)
Definition framesOk (isObelisk isStone : bool) (s : MapObjects.NewSprite)
  : bool :=
  forallb (fun k =>
             memString k loadedImages
             && Bool.eqb (String.prefix "obelisk_tower" k) isObelisk
             && Bool.eqb (String.prefix "stone_sector" k) isStone)
    (MapObjects.shownKeys s)
  && match MapObjects.shownKeys s with
     | k :: _ => String.eqb k (MapScene.texture_key (MapObjects.sprite s))
     | [] => false
     end.

(** Objects used in the examples: the obelisk tower and a plant, and the
    sprites [createAnimatedSprite] makes of them. *)
Definition obeliskObject : MapObjects.TileObject :=
  MapObjects.mkTileObject (Some 11185) (Some 480) (Some 749.667)
    (Some 128) (Some 256).

Definition obeliskSprite : MapObjects.NewSprite :=
  MapObjects.mkNewSprite (MapScene.mkSprite "obelisk_tower1" 480 749.667 0 1)
    0 1 128 256 (Some "obelisk_tower_anim").

Definition plantObject : MapObjects.TileObject :=
  MapObjects.mkTileObject (Some 11217) (Some 64) (Some 100)
    (Some 32) (Some 48).

Definition plantSprite : MapObjects.NewSprite :=
  MapObjects.mkNewSprite (MapScene.mkSprite "plant_tree1" 64 100 0 1)
    0 1 32 48 (Some "plant_tree_anim").

(** The keys of the seven animations of the actor. *)
Definition jiwatronKeys : list string :=
  map PreloaderScene.key PreloaderScene.createJiwatronAnimations.

(** The three cases of [handleAnimationComplete]. *)
Definition handled (key : string) : bool :=
  String.prefix "jiwatron-attack" key
  || String.eqb key "jiwatron-hurt" || String.eqb key "jiwatron-death".


End MoreSpec.

(** ** The actor: proofs *)

Module PlayerFacts.

Import Player PlayerSpec.
Local Open Scope string_scope.
Local Open Scope float_scope.

(** *** Comparisons with the literal zero *)

Lemma leb_zero_not_gt (c : float) : (c <=? 0) = true -> (0 <? c) = false.
Proof.
  rewrite leb_spec, ltb_spec.
  change (Prim2SF 0) with (S754_zero false).
  destruct (Prim2SF c) as [[] | [] | | [] m e]; cbn; congruence.
Qed.

(** *** What the animation helpers touch *)

Lemma playIdle_cases (p : t) :
  playIdle p = p \/ (flagged p = false /\ atRest p = true
                     /\ playIdle p = with_anim "jiwatron-idle" p).
Proof.
  unfold playIdle, play.
  destruct (flagged p); [now left|].
  destruct (atRest p); [right; auto | now left].
Qed.

Lemma playWalk_cases (p : t) :
  playWalk p = p \/ (flagged p = false /\ atRest p = false
                     /\ playWalk p = with_anim "jiwatron-walk" p).
Proof.
  unfold playWalk, play.
  destruct (flagged p); [now left|].
  destruct (atRest p); [now left | right; auto].
Qed.

Lemma flagged_play (k : string) (p : t) : flagged (play k p) = flagged p.
Proof. reflexivity. Qed.

Lemma atRest_play (k : string) (p : t) : atRest (play k p) = atRest p.
Proof. reflexivity. Qed.

Lemma Inv_with_anim (k : string) (p : t) : Inv p -> Inv (with_anim k p).
Proof. intros [Hc Hr He]; split; assumption. Qed.

Lemma Inv_playIdle (p : t) : Inv p -> Inv (playIdle p).
Proof.
  intros H; destruct (playIdle_cases p) as [-> | (_ & _ & ->)];
    auto using Inv_with_anim.
Qed.

Lemma Inv_playWalk (p : t) : Inv p -> Inv (playWalk p).
Proof.
  intros H; destruct (playWalk_cases p) as [-> | (_ & _ & ->)];
    auto using Inv_with_anim.
Qed.

(** *** The triggers keep the invariant *)

Lemma Inv_attack (key : string) (p : t) : Inv p -> Inv (attack key p).
Proof.
  intros [Hc Hr He]; unfold attack.
  destruct (isAttacking p || isHurt p || isDead p || (0 <? attackCooldown p));
    split; cbn; auto.
Qed.

Lemma Inv_playHurt (p : t) : Inv p -> Inv (playHurt p).
Proof.
  intros [Hc Hr He]; unfold playHurt.
  destruct (isHurt p || isDead p) eqn:Hg; split; cbn; auto.
Qed.

Lemma Inv_playDeath (p : t) : Inv p -> Inv (playDeath p).
Proof.
  intros [Hc Hr He]; unfold playDeath.
  destruct (isDead p) eqn:Hd; split; cbn; auto.
Qed.

Lemma Inv_resetCharacter (cx cy : float) (p : t) :
  Inv p -> Inv (resetCharacter cx cy p).
Proof.
  intros [Hc Hr He]; unfold resetCharacter.
  apply Inv_playIdle; split; cbn; auto; discriminate.
Qed.

Lemma Inv_clear_isAttacking (p : t) : Inv p -> Inv (with_isAttacking false p).
Proof.
  intros [Hc Hr He]; split; cbn; auto.
  intros Hf; apply Hr; unfold flagged in *; cbn in Hf.
  rewrite <- orb_assoc, Hf; apply orb_true_r.
Qed.

Lemma Inv_clear_isHurt (p : t) : Inv p -> Inv (with_isHurt false p).
Proof.
  intros [Hc Hr He]; split; cbn; auto.
  intros Hf; apply Hr; unfold flagged in *; cbn in Hf.
  rewrite orb_false_r in Hf.
  destruct (isAttacking p); cbn in *; [reflexivity|].
  now rewrite Hf, orb_true_r.
Qed.

Lemma Inv_handleAnimationComplete (key : string) (p : t) :
  Inv p -> Inv (handleAnimationComplete key p).
Proof.
  intros HI; unfold handleAnimationComplete.
  destruct (String.prefix "jiwatron-attack" key).
  - destruct (negb (isMoving (with_isAttacking false p)));
      auto using Inv_playIdle, Inv_clear_isAttacking.
  - destruct (String.eqb key "jiwatron-hurt");
      [auto using Inv_playIdle, Inv_clear_isHurt|].
    destruct (String.eqb key "jiwatron-death"); [|assumption].
    destruct HI as [Hc Hr He]; split; cbn; auto.
Qed.

(** *** The tick keeps the invariant *)

Lemma tickCooldown_id (p : t) : attackCooldown p = 0 -> tickCooldown p = p.
Proof. unfold tickCooldown; intros ->; reflexivity. Qed.

Lemma handleAttacks_attackKey (i : Input) (p : t) :
  handleAttacks i p =
  if negb (isAttacking p) && negb (isHurt p) then
    match attackKey i with Some key => attack key p | None => p end
  else p.
Proof.
  unfold handleAttacks, attackKey.
  destruct (negb (isAttacking p) && negb (isHurt p)); [|reflexivity].
  destruct (JustDown_J i), (JustDown_K i), (JustDown_L i); reflexivity.
Qed.

Lemma Inv_handleAttacks (i : Input) (p : t) : Inv p -> Inv (handleAttacks i p).
Proof.
  intros HI; rewrite handleAttacks_attackKey.
  destruct (negb (isAttacking p) && negb (isHurt p)); [|assumption].
  destruct (attackKey i); auto using Inv_attack.
Qed.

Lemma isDead_handleAttacks (i : Input) (p : t) :
  isDead (handleAttacks i p) = isDead p.
Proof.
  rewrite handleAttacks_attackKey.
  destruct (negb (isAttacking p) && negb (isHurt p)); [|reflexivity].
  destruct (attackKey i); [|reflexivity].
  unfold attack.
  now destruct (isAttacking p || isHurt p || isDead p
                || (0 <? attackCooldown p)).
Qed.

Lemma handleMovement_steer (i : Input) (p : t) :
  handleMovement i p =
  if negb (isAttacking p) && negb (isHurt p) then
    if movementHeld i then playWalk (steer i p) else playIdle (steer i p)
  else p.
Proof.
  unfold handleMovement, steer, movementHeld.
  destruct (negb (isAttacking p) && negb (isHurt p)); [|reflexivity].
  destruct (isDown_A i), (isDown_D i), (isDown_W i), (isDown_S i); reflexivity.
Qed.

Lemma steer_flags (i : Input) (p : t) :
  isAttacking (steer i p) = isAttacking p
  /\ isHurt (steer i p) = isHurt p
  /\ isDead (steer i p) = isDead p
  /\ attackCooldown (steer i p) = attackCooldown p
  /\ enable (body (steer i p)) = enable (body p)
  /\ anim (steer i p) = anim p.
Proof.
  unfold steer.
  destruct (isDown_A i), (isDown_D i), (isDown_W i), (isDown_S i);
    repeat split; reflexivity.
Qed.

Lemma steer_atRest (i : Input) (p : t) :
  atRest (steer i p) = negb (movementHeld i).
Proof.
  unfold steer, movementHeld.
  destruct (isDown_A i), (isDown_D i), (isDown_W i), (isDown_S i);
    reflexivity.
Qed.

Lemma Inv_steer (i : Input) (p : t) :
  Inv p -> flagged p = false -> Inv (steer i p).
Proof.
  intros [Hc Hr He] Hf.
  destruct (steer_flags i p) as (Ha & Hh & Hd & Hcd & Hen & _).
  split.
  - now rewrite Hcd.
  - unfold flagged; rewrite Ha, Hh, Hd; fold (flagged p); congruence.
  - rewrite Hen, Hd; assumption.
Qed.

Lemma Inv_handleMovement (i : Input) (p : t) :
  Inv p -> isDead p = false -> Inv (handleMovement i p).
Proof.
  intros HI Hd; rewrite handleMovement_steer.
  destruct (negb (isAttacking p) && negb (isHurt p)) eqn:Hg; [|assumption].
  assert (flagged p = false) as Hf.
  { unfold flagged; rewrite Hd.
    destruct (isAttacking p), (isHurt p); cbn in *; congruence. }
  destruct (movementHeld i); auto using Inv_playWalk, Inv_playIdle, Inv_steer.
Qed.

Lemma Inv_update (i : Input) (p : t) : Inv p -> Inv (update i p).
Proof.
  intros HI; unfold update.
  rewrite (tickCooldown_id p (inv_cooldown p HI)).
  destruct (isDead p) eqn:Hd.
  - destruct (JustDown_R i); auto using Inv_resetCharacter.
  - destruct (JustDown_H i); [auto using Inv_playHurt|].
    destruct (JustDown_P i); [auto using Inv_playDeath|].
    apply Inv_handleMovement; [auto using Inv_handleAttacks|].
    now rewrite isDead_handleAttacks.
Qed.

Lemma Inv_step (e : Event) (p : t) : Inv p -> Inv (step e p).
Proof.
  destruct e; cbn; auto using Inv_update, Inv_handleAnimationComplete.
Qed.

Lemma Inv_spawn (px py : float) : Inv (spawn px py).
Proof. split; cbn; [reflexivity | discriminate | discriminate]. Qed.

Lemma Inv_reachable (p : t) : reachable p -> Inv p.
Proof. induction 1; auto using Inv_spawn, Inv_step. Qed.

Lemma run_nil (p : t) : run [] p = p.
Proof. reflexivity. Qed.

Lemma run_cons (e : Event) (evs : list Event) (p : t) :
  run (e :: evs) p = run evs (step e p).
Proof. reflexivity. Qed.

Lemma Inv_run (evs : list Event) (p : t) : Inv p -> Inv (run evs p).
Proof.
  revert p; induction evs as [|e evs IH]; intros p HI; [assumption|].
  rewrite run_cons; apply IH, Inv_step, HI.
Qed.

Lemma reachable_run (evs : list Event) (p : t) :
  reachable p -> reachable (run evs p).
Proof.
  revert p; induction evs as [|e evs IH]; intros p Hp; [assumption|].
  rewrite run_cons; apply IH, reach_step, Hp.
Qed.

Lemma reachable_examples :
  reachable walkingActor /\ reachable attackingActor
  /\ reachable hurtActor /\ reachable deadActor.
Proof. repeat split; apply reachable_run, reach_spawn. Qed.

(** *** The cooldown never engages *)

(** C9.  In every state reachable from spawn the attack cooldown is 0, so the
    test [attackCooldown > 0] of [attack] is never true: an attack trigger is
    refused exactly when one of the three flags is set. *)
Theorem attackCooldown_never_engages (p : t) :
  reachable p ->
  attackCooldown p = 0
  /\ (0 <? attackCooldown p) = false
  /\ forall key,
       attack key p =
       if flagged p then p
       else play key (setVelocity 0 (with_isAttacking true p)).
Proof.
  intros Hp.
  pose proof (inv_cooldown p (Inv_reachable p Hp)) as Hc.
  rewrite Hc; repeat split.
  intros key; unfold attack, flagged.
  rewrite Hc; change (0 <? 0) with false.
  now rewrite orb_false_r.
Qed.

Lemma attackCooldown_never_engages_witness :
  attackCooldown attackingActor = 0
  /\ (0 <? attackCooldown attackingActor) = false
  /\ forall key,
       attack key attackingActor =
       if flagged attackingActor then attackingActor
       else play key (setVelocity 0 (with_isAttacking true attackingActor)).
Proof.
  apply attackCooldown_never_engages.
  apply reachable_examples.
Defined.

(** *** The five states *)

Lemma holds_unique (p : t) (s s' : ActorState) :
  holds s p = true -> holds s' p = true -> s' = s.
Proof.
  unfold holds, flagged.
  destruct s, s', (isAttacking p), (isHurt p), (isDead p), (atRest p);
    cbn; congruence.
Qed.

Lemma holds_some (p : t) : exists s, holds s p = true.
Proof.
  destruct (isDead p) eqn:Hd; [exists Dead; exact Hd|].
  destruct (isHurt p) eqn:Hh; [exists Hurt; cbn; now rewrite Hd, Hh|].
  destruct (isAttacking p) eqn:Ha;
    [exists Attacking; cbn; now rewrite Hd, Hh, Ha|].
  destruct (atRest p) eqn:Hr;
    [exists Idle | exists Walking]; unfold holds, flagged;
    now rewrite Ha, Hh, Hd, Hr.
Qed.

(** C1 as stated fails: a Death trigger while Hurt leaves [isHurt] set, so two
    flags are true together. *)
Lemma flags_not_exclusive :
  ~ (forall p, reachable p -> flagsExclusive p = true).
Proof.
  intros H.
  specialize (H (run [Tick pressH; Tick pressP] (spawn 400 300))
                (reachable_run _ _ (reach_spawn _ _))).
  vm_compute in H; discriminate.
Qed.

(** C1, amended.  In every reachable state exactly one of the five states
    holds when the flags are read in the order the guards of [update] use
    ([isDead], then [isHurt], then [isAttacking], then the velocity); an actor
    with a flag set is at rest, so an actor in motion is Walking whatever
    order the flags are read in; and only a dead actor has its body
    disabled. *)
Theorem one_state_by_priority (p : t) :
  reachable p ->
  (exists s, holds s p = true /\ forall s', holds s' p = true -> s' = s)
  /\ (flagged p = true -> atRest p = true)
  /\ (atRest p = false -> flagged p = false /\ holds Walking p = true)
  /\ (enable (body p) = false -> holds Dead p = true).
Proof.
  intros Hp; destruct (Inv_reachable p Hp) as [_ Hr He].
  split; [|split; [|split]].
  - destruct (holds_some p) as [s Hs]; exists s; split; [exact Hs|].
    intros s' Hs'; exact (holds_unique p s s' Hs Hs').
  - exact Hr.
  - intros Hm; assert (flagged p = false) as Hf.
    { destruct (flagged p); [|reflexivity].
      rewrite Hr in Hm by reflexivity; discriminate. }
    split; [exact Hf|]; cbn; now rewrite Hf, Hm.
  - exact He.
Qed.

Lemma one_state_by_priority_witness :
  (exists s, holds s walkingActor = true
             /\ forall s', holds s' walkingActor = true -> s' = s)
  /\ (flagged walkingActor = true -> atRest walkingActor = true)
  /\ (atRest walkingActor = false ->
      flagged walkingActor = false /\ holds Walking walkingActor = true)
  /\ (enable (body walkingActor) = false -> holds Dead walkingActor = true).
Proof.
  apply one_state_by_priority.
  apply reachable_examples.
Defined.

(** *** Hurt during an attack *)

Lemma attacking_tick (i : Input) (p : t) :
  attackCooldown p = 0 -> isAttacking p = true -> isDead p = false ->
  quiet i = true -> update i p = p.
Proof.
  intros Hc Ha Hd Hq; unfold quiet in Hq.
  apply andb_true_iff in Hq as [Hh Hp]; apply negb_true_iff in Hh, Hp.
  unfold update; rewrite (tickCooldown_id p Hc), Hd, Hh, Hp.
  unfold handleAttacks; rewrite Ha; cbn [negb andb].
  unfold handleMovement; now rewrite Ha.
Qed.

Lemma stuckActor_frozen (evs : list Event) :
  quietRun evs stuckActor = true -> run evs stuckActor = stuckActor.
Proof.
  induction evs as [|e evs IH]; intros Hq; [reflexivity|].
  rewrite run_cons; destruct e as [i | key]; cbn [quietRun step] in *;
    apply andb_true_iff in Hq as [He Hq].
  - rewrite (attacking_tick i stuckActor eq_refl eq_refl eq_refl He) in *.
    auto.
  - apply String.eqb_eq in He; subst key.
    change (handleAnimationComplete (anim stuckActor) stuckActor)
      with stuckActor in *.
    auto.
Qed.

(** C3 at its failing input: spawn, press J, then press H.  The Hurt trigger
    sets [isHurt], zeroes the velocity and replaces the attack animation, but
    [isAttacking] stays set.  Once the hurt animation completes the stale
    flag makes [playIdle] return early and gates both blocks of [update]: the
    actor is Attacking again while its animation is still the finished hurt
    animation, and no later run of ticks without a hurt or death trigger,
    whatever movement and attack keys they carry, changes the state.  In
    general [playHurt] never changes [isAttacking]. *)
Theorem hurt_leaves_isAttacking_set :
  (isAttacking (run [Tick pressJ; Tick pressH] (spawn 400 300)) = true
   /\ isHurt (run [Tick pressJ; Tick pressH] (spawn 400 300)) = true
   /\ atRest (run [Tick pressJ; Tick pressH] (spawn 400 300)) = true
   /\ anim (run [Tick pressJ; Tick pressH] (spawn 400 300)) = "jiwatron-hurt")
  /\ (holds Attacking stuckActor = true
      /\ anim stuckActor = "jiwatron-hurt"
      /\ forall evs, quietRun evs stuckActor = true ->
                     run evs stuckActor = stuckActor)
  /\ (forall p, isAttacking (playHurt p) = isAttacking p).
Proof.
  split; [|split].
  - repeat split; reflexivity.
  - repeat split; try reflexivity.
    exact stuckActor_frozen.
  - intros p; unfold playHurt; now destruct (isHurt p || isDead p).
Qed.

(** *** Completion of an attack *)

(** C4 as stated fails: the handler does not read the keys.  With D held
    while attack 1 completes, the actor is at rest and not Walking. *)
Lemma attack_completion_ignores_input :
  ~ (forall p i key,
        reachable p -> holds Attacking p = true ->
        String.prefix "jiwatron-attack" key = true ->
        if movementHeld i
        then holds Walking (handleAnimationComplete key p) = true
        else holds Idle (handleAnimationComplete key p) = true).
Proof.
  intros H.
  specialize (H (run [Tick holdD_pressJ] (spawn 400 300)) holdD
                "jiwatron-attack1"
                (reachable_run _ _ (reach_spawn _ _)) eq_refl eq_refl).
  vm_compute in H; discriminate.
Qed.

Lemma attack_completion_effect (p : t) (key : string) :
  Inv p -> holds Attacking p = true ->
  String.prefix "jiwatron-attack" key = true ->
  flagged (handleAnimationComplete key p) = false
  /\ atRest (handleAnimationComplete key p) = true
  /\ body (handleAnimationComplete key p) = body p
  /\ attackCooldown (handleAnimationComplete key p) = 0.
Proof.
  intros [Hc Hr He] Ha Hk; unfold handleAnimationComplete; rewrite Hk.
  cbn in Ha; apply andb_true_iff in Ha as [Hdh Ha].
  apply andb_true_iff in Hdh as [Hd Hh].
  apply negb_true_iff in Hd, Hh.
  assert (atRest p = true) as Hrest
    by (apply Hr; unfold flagged; now rewrite Ha).
  assert (flagged (with_isAttacking false p) = false) as Hf
    by (unfold flagged; cbn; now rewrite Hh, Hd).
  destruct (negb (isMoving (with_isAttacking false p))).
  - destruct (playIdle_cases (with_isAttacking false p))
      as [-> | (_ & _ & ->)]; repeat split; assumption.
  - repeat split; assumption.
Qed.

(** C4, amended.  When the attack animation completes the actor leaves
    Attacking and is at rest, whatever keys are held; the first following
    tick without a hurt, death or attack trigger makes it Walking if a
    movement key is held during that tick and Idle otherwise. *)
Theorem attack_completion_then_tick (p : t) (i : Input) (key : string) :
  reachable p -> holds Attacking p = true ->
  String.prefix "jiwatron-attack" key = true ->
  JustDown_H i = false -> JustDown_P i = false -> attackKey i = None ->
  (isAttacking (handleAnimationComplete key p) = false
   /\ holds Idle (handleAnimationComplete key p) = true
   /\ body (handleAnimationComplete key p) = body p)
  /\ (if movementHeld i
      then holds Walking (update i (handleAnimationComplete key p)) = true
           /\ anim (update i (handleAnimationComplete key p)) = "jiwatron-walk"
      else holds Idle (update i (handleAnimationComplete key p)) = true
           /\ anim (update i (handleAnimationComplete key p))
              = "jiwatron-idle").
Proof.
  intros Hp Ha Hk Hh Hpp Hkey.
  destruct (attack_completion_effect p key (Inv_reachable p Hp) Ha Hk)
    as (Hf & Hrest & Hb & Hc).
  set (q := handleAnimationComplete key p) in *.
  assert (isAttacking q = false /\ isHurt q = false /\ isDead q = false)
    as (Hqa & Hqh & Hqd).
  { unfold flagged in Hf.
    destruct (isAttacking q), (isHurt q), (isDead q); cbn in Hf;
      repeat split; congruence. }
  split.
  - repeat split; [exact Hqa | cbn; now rewrite Hf, Hrest | exact Hb].
  - unfold update.
    rewrite (tickCooldown_id q Hc), Hqd, Hh, Hpp.
    rewrite handleAttacks_attackKey, Hkey, Hqa, Hqh; cbn [negb andb].
    rewrite handleMovement_steer, Hqa, Hqh; cbn [negb andb].
    destruct (steer_flags i q) as (Sa & Sh & Sd & _).
    assert (flagged (steer i q) = false) as Sf
      by (unfold flagged; now rewrite Sa, Sh, Sd, Hqa, Hqh, Hqd).
    pose proof (steer_atRest i q) as Sr.
    destruct (movementHeld i); cbn in Sr.
    + unfold playWalk, holds; rewrite Sf, Sr; cbn [negb].
      now rewrite flagged_play, atRest_play, Sf, Sr.
    + unfold playIdle, holds; rewrite Sf, Sr.
      now rewrite flagged_play, atRest_play, Sf, Sr.
Qed.

Lemma attack_completion_then_tick_witness :
  (isAttacking (handleAnimationComplete "jiwatron-attack1" attackingActor)
   = false
   /\ holds Idle (handleAnimationComplete "jiwatron-attack1" attackingActor)
      = true
   /\ body (handleAnimationComplete "jiwatron-attack1" attackingActor)
      = body attackingActor)
  /\ holds Walking
       (update holdD
          (handleAnimationComplete "jiwatron-attack1" attackingActor))
     = true
  /\ anim
       (update holdD
          (handleAnimationComplete "jiwatron-attack1" attackingActor))
     = "jiwatron-walk".
Proof.
  exact (attack_completion_then_tick attackingActor holdD "jiwatron-attack1"
           (proj1 (proj2 reachable_examples))
           eq_refl eq_refl eq_refl eq_refl eq_refl).
Defined.

(** *** Death *)

(** C5 as stated fails: the Death trigger leaves the body enabled. *)
Lemma death_trigger_keeps_body_enabled :
  ~ (forall p i,
        reachable p -> isDead p = false ->
        JustDown_H i = false -> JustDown_P i = true ->
        isDead (update i p) = true
        /\ atRest (update i p) = true
        /\ enable (body (update i p)) = false).
Proof.
  intros H.
  destruct (H (spawn 400 300) pressP (reach_spawn _ _) eq_refl eq_refl eq_refl)
    as (_ & _ & He).
  vm_compute in He; discriminate.
Qed.

Lemma dead_tick (i : Input) (p : t) :
  attackCooldown p = 0 -> isDead p = true -> JustDown_R i = false ->
  update i p = p.
Proof.
  intros Hc Hd Hr; unfold update.
  now rewrite (tickCooldown_id p Hc), Hd, Hr.
Qed.

Lemma dead_playIdle (p : t) : isDead p = true -> playIdle p = p.
Proof.
  intros Hd; unfold playIdle, flagged; rewrite Hd.
  now rewrite orb_true_r.
Qed.

Lemma dead_complete (key : string) (p : t) :
  DeadAtRest p ->
  DeadAtRest (handleAnimationComplete key p)
  /\ x (handleAnimationComplete key p) = x p
  /\ y (handleAnimationComplete key p) = y p
  /\ flipX (handleAnimationComplete key p) = flipX p
  /\ attackCooldown (handleAnimationComplete key p) = attackCooldown p
  /\ (enable (body p) = false ->
      enable (body (handleAnimationComplete key p)) = false).
Proof.
  intros [Hd Hx Hy]; unfold handleAnimationComplete.
  destruct (String.prefix "jiwatron-attack" key).
  - assert (playIdle (with_isAttacking false p) = with_isAttacking false p)
      as Hi by (apply dead_playIdle; exact Hd).
    destruct (negb (isMoving (with_isAttacking false p)));
      rewrite ?Hi; repeat split; auto.
  - destruct (String.eqb key "jiwatron-hurt").
    + rewrite dead_playIdle by exact Hd; repeat split; auto.
    + destruct (String.eqb key "jiwatron-death"); repeat split; auto.
Qed.

Lemma dead_run (evs : list Event) (p : t) :
  attackCooldown p = 0 -> DeadAtRest p -> noReset evs = true ->
  DeadAtRest (run evs p)
  /\ x (run evs p) = x p /\ y (run evs p) = y p
  /\ flipX (run evs p) = flipX p
  /\ attackCooldown (run evs p) = 0
  /\ (enable (body p) = false -> enable (body (run evs p)) = false).
Proof.
  revert p; induction evs as [|e evs IH]; intros p Hc HD Hn.
  - rewrite run_nil; repeat split; auto; apply HD.
  - cbn in Hn; apply andb_true_iff in Hn as [He Hn].
    rewrite run_cons; destruct e as [i | key]; cbn [step].
    + apply negb_true_iff in He.
      rewrite (dead_tick i p Hc (dead_flag p HD) He); auto.
    + destruct (dead_complete key p HD) as (HD' & Hx & Hy & Hfl & Hcd & Hen).
      rewrite Hc in Hcd.
      destruct (IH _ Hcd HD' Hn) as (R1 & R2 & R3 & R4 & R5 & R6).
      rewrite R2, R3, R4, Hx, Hy, Hfl; repeat split; auto; apply R1.
Qed.

(** C5, amended.  A Death trigger in a non-Dead state sets [isDead], zeroes
    the velocity and starts the death animation; the body keeps its [enable]
    bit and is disabled when the death animation completes.  From the trigger
    on, as long as no tick presses Reset, the actor stays dead, at rest and in
    place, every tick leaves the whole state unchanged, and a disabled body
    stays disabled. *)
Theorem death_trigger_until_reset (p : t) (i : Input) (evs : list Event) :
  reachable p -> isDead p = false ->
  JustDown_H i = false -> JustDown_P i = true ->
  noReset evs = true ->
  (isDead (update i p) = true
   /\ velocityX (body (update i p)) = 0
   /\ velocityY (body (update i p)) = 0
   /\ anim (update i p) = "jiwatron-death"
   /\ enable (body (update i p)) = enable (body p))
  /\ enable (body (handleAnimationComplete "jiwatron-death" (update i p)))
     = false
  /\ (isDead (run evs (update i p)) = true
      /\ velocityX (body (run evs (update i p))) = 0
      /\ velocityY (body (run evs (update i p))) = 0
      /\ x (run evs (update i p)) = x p
      /\ y (run evs (update i p)) = y p
      /\ flipX (run evs (update i p)) = flipX p)
  /\ (forall j, JustDown_R j = false ->
        update j (run evs (update i p)) = run evs (update i p))
  /\ enable
       (body (run evs (handleAnimationComplete "jiwatron-death" (update i p))))
     = false.
Proof.
  intros Hp Hd Hh Hpp Hn.
  pose proof (inv_cooldown p (Inv_reachable p Hp)) as Hc.
  assert (update i p
          = play "jiwatron-death" (setVelocity 0 (with_isDead true p))) as Hu.
  { unfold update; rewrite (tickCooldown_id p Hc), Hd, Hh, Hpp.
    unfold playDeath; now rewrite Hd. }
  rewrite Hu.
  set (q := play "jiwatron-death" (setVelocity 0 (with_isDead true p))).
  assert (DeadAtRest q) as HD by (split; reflexivity).
  assert (attackCooldown q = 0) as Hcq by exact Hc.
  destruct (dead_run evs q Hcq HD Hn) as ([R1 Rx Ry] & R2 & R3 & R4 & R5 & _).
  split; [repeat split|].
  split; [reflexivity|].
  split; [repeat split; assumption|].
  split.
  - intros j Hj; now apply dead_tick.
  - destruct (dead_complete "jiwatron-death" q HD)
      as (HD' & _ & _ & _ & Hcd & _).
    rewrite Hcq in Hcd.
    destruct (dead_run evs _ Hcd HD' Hn) as (_ & _ & _ & _ & _ & Hen).
    now apply Hen.
Qed.

Lemma death_trigger_until_reset_witness :
  (isDead (update pressP walkingActor) = true
   /\ velocityX (body (update pressP walkingActor)) = 0
   /\ velocityY (body (update pressP walkingActor)) = 0
   /\ anim (update pressP walkingActor) = "jiwatron-death"
   /\ enable (body (update pressP walkingActor)) = enable (body walkingActor))
  /\ enable
       (body (handleAnimationComplete "jiwatron-death"
                (update pressP walkingActor))) = false
  /\ (isDead (run afterDeath (update pressP walkingActor)) = true
      /\ velocityX (body (run afterDeath (update pressP walkingActor))) = 0
      /\ velocityY (body (run afterDeath (update pressP walkingActor))) = 0
      /\ x (run afterDeath (update pressP walkingActor)) = x walkingActor
      /\ y (run afterDeath (update pressP walkingActor)) = y walkingActor
      /\ flipX (run afterDeath (update pressP walkingActor))
         = flipX walkingActor)
  /\ (forall j, JustDown_R j = false ->
        update j (run afterDeath (update pressP walkingActor))
        = run afterDeath (update pressP walkingActor))
  /\ enable
       (body
          (run afterDeath
             (handleAnimationComplete "jiwatron-death"
                (update pressP walkingActor)))) = false.
Proof.
  apply death_trigger_until_reset; try reflexivity.
  apply reachable_examples.
Defined.

(** *** The attack gate *)

Lemma idle_or_walking (p : t) :
  holds Idle p || holds Walking p = negb (flagged p).
Proof. cbn; destruct (flagged p), (atRest p); reflexivity. Qed.

Lemma attack_accepted (key : string) (p : t) :
  flagged p = false -> (0 <? attackCooldown p) = false ->
  attack key p = play key (setVelocity 0 (with_isAttacking true p)).
Proof.
  intros Hf Hc; unfold attack; fold (flagged p); now rewrite Hf, Hc.
Qed.

Lemma attack_refused (key : string) (p : t) :
  flagged p = true \/ (0 <? attackCooldown p) = true -> attack key p = p.
Proof.
  intros [Hf | Hc]; unfold attack; fold (flagged p).
  - now rewrite Hf.
  - now rewrite Hc, orb_true_r.
Qed.

(** C6.  On a tick whose attack key selects [key] (and that carries no hurt,
    death or reset trigger), a reachable actor that is Idle or Walking enters
    Attacking with animation [key] and zero velocity, and an actor that is
    Attacking, Hurt or Dead is left exactly as it was: no field changes and
    the running animation is not restarted.  For any actor state, [attack]
    starts the attack when no flag is set and [attackCooldown <= 0], and
    returns the state unchanged when a flag is set or [attackCooldown > 0]. *)
Theorem attack_trigger_gate (p : t) (i : Input) (key : string) :
  reachable p -> attackKey i = Some key ->
  JustDown_H i = false -> JustDown_P i = false -> JustDown_R i = false ->
  (if holds Idle p || holds Walking p
   then holds Attacking (update i p) = true
        /\ anim (update i p) = key
        /\ velocityX (body (update i p)) = 0
        /\ velocityY (body (update i p)) = 0
   else update i p = p)
  /\ (forall q k,
        flagged q = false -> (attackCooldown q <=? 0) = true ->
        attack k q = play k (setVelocity 0 (with_isAttacking true q)))
  /\ (forall q k,
        flagged q = true \/ (0 <? attackCooldown q) = true ->
        attack k q = q).
Proof.
  intros Hp Hkey Hh Hpp Hr.
  pose proof (inv_cooldown p (Inv_reachable p Hp)) as Hc.
  rewrite idle_or_walking.
  assert (update i p =
          if isDead p then p else handleMovement i (handleAttacks i p)) as Hu.
  { unfold update; rewrite (tickCooldown_id p Hc), Hh, Hpp, Hr.
    now destruct (isDead p). }
  rewrite Hu, handleAttacks_attackKey, Hkey.
  split; [|split].
  - destruct (flagged p) eqn:Hf; cbn [negb].
    + destruct (isDead p) eqn:Hd; [reflexivity|].
      assert (negb (isAttacking p) && negb (isHurt p) = false) as Hg.
      { unfold flagged in Hf; rewrite Hd, orb_false_r in Hf.
        destruct (isAttacking p), (isHurt p); cbn in *; congruence. }
      rewrite Hg, handleMovement_steer; now rewrite Hg.
    + assert (isAttacking p = false /\ isHurt p = false /\ isDead p = false)
        as (Ha & Hhu & Hd).
      { unfold flagged in Hf.
        destruct (isAttacking p), (isHurt p), (isDead p); cbn in Hf;
          repeat split; congruence. }
      rewrite Hd, Ha, Hhu; cbn [negb andb].
      rewrite attack_accepted by (trivial; rewrite Hc; reflexivity).
      rewrite handleMovement_steer; cbn.
      now rewrite Hhu, Hd.
  - intros q k Hf Hle; apply attack_accepted; auto using leb_zero_not_gt.
  - intros q k; apply attack_refused.
Qed.

Lemma attack_trigger_gate_witness :
  (holds Attacking (update holdD_pressJ walkingActor) = true
   /\ anim (update holdD_pressJ walkingActor) = "jiwatron-attack1"
   /\ velocityX (body (update holdD_pressJ walkingActor)) = 0
   /\ velocityY (body (update holdD_pressJ walkingActor)) = 0)
  /\ (forall q k,
        flagged q = false -> (attackCooldown q <=? 0) = true ->
        attack k q = play k (setVelocity 0 (with_isAttacking true q)))
  /\ (forall q k,
        flagged q = true \/ (0 <? attackCooldown q) = true ->
        attack k q = q).
Proof.
  exact (attack_trigger_gate walkingActor holdD_pressJ "jiwatron-attack1"
           (proj1 reachable_examples) eq_refl eq_refl eq_refl eq_refl).
Defined.

(** *** Further transitions *)

(** The completion of the hurt animation returns a Hurt actor with no attack
    pending to Idle and starts the idle animation. *)
Theorem hurt_completion_idle (p : t) :
  reachable p -> holds Hurt p = true -> isAttacking p = false ->
  holds Idle (handleAnimationComplete "jiwatron-hurt" p) = true
  /\ anim (handleAnimationComplete "jiwatron-hurt" p) = "jiwatron-idle".
Proof.
  intros Hp Hh Ha.
  pose proof (inv_rest p (Inv_reachable p Hp)) as Hr.
  cbn in Hh; apply andb_true_iff in Hh as [Hd Hh]; apply negb_true_iff in Hd.
  assert (atRest p = true) as Hrest
    by (apply Hr; unfold flagged; now rewrite Hh, orb_true_r).
  unfold handleAnimationComplete.
  change (String.prefix "jiwatron-attack" "jiwatron-hurt") with false.
  change ("jiwatron-hurt" =? "jiwatron-hurt")%string with true.
  cbv iota.
  assert (flagged (with_isHurt false p) = false) as Hf
    by (unfold flagged; cbn; now rewrite Ha, Hd).
  unfold playIdle; rewrite Hf.
  change (atRest (with_isHurt false p)) with (atRest p); rewrite Hrest.
  unfold holds; rewrite flagged_play, atRest_play, Hf.
  change (atRest (with_isHurt false p)) with (atRest p); rewrite Hrest.
  split; reflexivity.
Qed.

Lemma hurt_completion_idle_witness :
  holds Idle (handleAnimationComplete "jiwatron-hurt" hurtActor) = true
  /\ anim (handleAnimationComplete "jiwatron-hurt" hurtActor)
     = "jiwatron-idle".
Proof.
  apply hurt_completion_idle; try reflexivity.
  apply reachable_examples.
Defined.

(** Reset on a dead actor clears the three flags and the cooldown, enables
    the body, moves the actor to the camera centre and starts the idle
    animation: the actor is Idle. *)
Theorem reset_from_dead (p : t) (i : Input) :
  reachable p -> isDead p = true -> JustDown_R i = true ->
  holds Idle (update i p) = true
  /\ flagged (update i p) = false
  /\ attackCooldown (update i p) = 0
  /\ enable (body (update i p)) = true
  /\ x (update i p) = centerX i
  /\ y (update i p) = centerY i
  /\ anim (update i p) = "jiwatron-idle".
Proof.
  intros Hp Hd Hr.
  pose proof (Inv_reachable p Hp) as [Hc Hrest _].
  assert (atRest p = true) as Hrest'
    by (apply Hrest; unfold flagged; now rewrite Hd, orb_true_r).
  unfold update; rewrite (tickCooldown_id p Hc), Hd, Hr.
  unfold resetCharacter, playIdle.
  change (flagged (setPosition _ _ _)) with false.
  change (atRest (setPosition _ _ _)) with (atRest p); rewrite Hrest'.
  unfold holds; rewrite flagged_play, atRest_play.
  change (flagged (setPosition _ _ _)) with false.
  change (atRest (setPosition _ _ _)) with (atRest p); rewrite Hrest'.
  repeat split; reflexivity.
Qed.

Lemma reset_from_dead_witness :
  holds Idle (update pressR deadActor) = true
  /\ flagged (update pressR deadActor) = false
  /\ attackCooldown (update pressR deadActor) = 0
  /\ enable (body (update pressR deadActor)) = true
  /\ x (update pressR deadActor) = 400
  /\ y (update pressR deadActor) = 300
  /\ anim (update pressR deadActor) = "jiwatron-idle".
Proof.
  apply reset_from_dead; try reflexivity.
  apply reachable_examples.
Defined.

Lemma playIdle_frame (p : t) :
  body (playIdle p) = body p /\ flipX (playIdle p) = flipX p
  /\ isMoving (playIdle p) = isMoving p.
Proof. now destruct (playIdle_cases p) as [-> | (_ & _ & ->)]. Qed.

Lemma playWalk_frame (p : t) :
  body (playWalk p) = body p /\ flipX (playWalk p) = flipX p
  /\ isMoving (playWalk p) = isMoving p.
Proof. now destruct (playWalk_cases p) as [-> | (_ & _ & ->)]. Qed.

Lemma steer_effect (i : Input) (p : t) :
  velocityX (body (steer i p))
  = (if isDown_A i then - speed else if isDown_D i then speed else 0)
  /\ velocityY (body (steer i p))
     = (if isDown_W i then - speed else if isDown_S i then speed else 0)
  /\ flipX (steer i p)
     = (if isDown_A i then true else if isDown_D i then false else flipX p).
Proof.
  unfold steer.
  destruct (isDown_A i), (isDown_D i), (isDown_W i), (isDown_S i);
    repeat split; reflexivity.
Qed.

(** A tick without triggers on an actor with no flag set: the two axes are
    steered independently from the held keys, the sprite faces left with A
    and right with D, and the actor is Walking with the walk animation when a
    movement key is held and Idle with the idle animation otherwise. *)
Theorem movement_tick (p : t) (i : Input) :
  reachable p -> flagged p = false ->
  quiet i = true -> attackKey i = None ->
  velocityX (body (update i p))
  = (if isDown_A i then - speed else if isDown_D i then speed else 0)
  /\ velocityY (body (update i p))
     = (if isDown_W i then - speed else if isDown_S i then speed else 0)
  /\ flipX (update i p)
     = (if isDown_A i then true else if isDown_D i then false else flipX p)
  /\ (if movementHeld i
      then holds Walking (update i p) = true
           /\ anim (update i p) = "jiwatron-walk"
      else holds Idle (update i p) = true
           /\ anim (update i p) = "jiwatron-idle").
Proof.
  intros Hp Hf Hq Hkey.
  pose proof (inv_cooldown p (Inv_reachable p Hp)) as Hc.
  unfold quiet in Hq; apply andb_true_iff in Hq as [Hh Hpp].
  apply negb_true_iff in Hh, Hpp.
  assert (isAttacking p = false /\ isHurt p = false /\ isDead p = false)
    as (Ha & Hhu & Hd).
  { unfold flagged in Hf.
    destruct (isAttacking p), (isHurt p), (isDead p); cbn in Hf;
      repeat split; congruence. }
  unfold update; rewrite (tickCooldown_id p Hc), Hd, Hh, Hpp.
  rewrite handleAttacks_attackKey, Hkey, Ha, Hhu; cbn [negb andb].
  rewrite handleMovement_steer, Ha, Hhu; cbn [negb andb].
  destruct (steer_flags i p) as (Sa & Sh & Sd & _).
  assert (flagged (steer i p) = false) as Sf
    by (unfold flagged; now rewrite Sa, Sh, Sd, Ha, Hhu, Hd).
  pose proof (steer_atRest i p) as Sr.
  destruct (steer_effect i p) as (Vx & Vy & Fl).
  destruct (playWalk_frame (steer i p)) as (Wb & Wf & _).
  destruct (playIdle_frame (steer i p)) as (Ib & If & _).
  destruct (movementHeld i); cbn in Sr.
  - rewrite Wb, Wf; repeat split; try assumption.
    + unfold playWalk, holds; rewrite Sf, Sr; cbn [negb].
      now rewrite flagged_play, atRest_play, Sf, Sr.
    + unfold playWalk; now rewrite Sf, Sr.
  - rewrite Ib, If; repeat split; try assumption.
    + unfold playIdle, holds; rewrite Sf, Sr.
      now rewrite flagged_play, atRest_play, Sf, Sr.
    + unfold playIdle; now rewrite Sf, Sr.
Qed.

Lemma movement_tick_witness :
  velocityX (body (update holdD walkingActor)) = speed
  /\ velocityY (body (update holdD walkingActor)) = 0
  /\ flipX (update holdD walkingActor) = false
  /\ holds Walking (update holdD walkingActor) = true
  /\ anim (update holdD walkingActor) = "jiwatron-walk".
Proof.
  exact (movement_tick walkingActor holdD (proj1 reachable_examples)
           eq_refl eq_refl eq_refl).
Defined.

Lemma isMoving_handleAttacks (i : Input) (p : t) :
  isMoving (handleAttacks i p) = isMoving p.
Proof.
  rewrite handleAttacks_attackKey.
  destruct (negb (isAttacking p) && negb (isHurt p)); [|reflexivity].
  destruct (attackKey i); [|reflexivity].
  unfold attack.
  now destruct (isAttacking p || isHurt p || isDead p
                || (0 <? attackCooldown p)).
Qed.

Lemma isMoving_steer (i : Input) (p : t) :
  isMoving p = true -> isMoving (steer i p) = true.
Proof.
  intros Hm; unfold steer.
  destruct (isDown_A i), (isDown_D i), (isDown_W i), (isDown_S i);
    try reflexivity; exact Hm.
Qed.

Lemma isMoving_handleMovement (i : Input) (p : t) :
  isMoving p = true -> isMoving (handleMovement i p) = true.
Proof.
  intros Hm; rewrite handleMovement_steer.
  destruct (negb (isAttacking p) && negb (isHurt p)); [|exact Hm].
  destruct (playWalk_frame (steer i p)) as (_ & _ & Hw).
  destruct (playIdle_frame (steer i p)) as (_ & _ & Hi).
  destruct (movementHeld i); rewrite ?Hw, ?Hi; now apply isMoving_steer.
Qed.

Lemma isMoving_update (i : Input) (p : t) :
  isMoving p = true -> isMoving (update i p) = true.
Proof.
  intros Hm; unfold update.
  assert (isMoving (tickCooldown p) = true) as Ht
    by (unfold tickCooldown; now destruct (0 <? attackCooldown p)).
  set (q := tickCooldown p) in *.
  destruct (isDead q) eqn:Hd.
  - destruct (JustDown_R i); [|exact Ht].
    unfold resetCharacter.
    now destruct (playIdle_frame
                    (setPosition (centerX i) (centerY i)
                       (setBodyEnable true
                          (with_attackCooldown 0
                             (with_isAttacking false
                                (with_isHurt false (with_isDead false q)))))))
      as (_ & _ & ->).
  - destruct (JustDown_H i);
      [unfold playHurt; now destruct (isHurt q || isDead q)|].
    destruct (JustDown_P i); [unfold playDeath; now rewrite Hd|].
    apply isMoving_handleMovement; now rewrite isMoving_handleAttacks.
Qed.

Lemma isMoving_step (e : Event) (p : t) :
  isMoving p = true -> isMoving (step e p) = true.
Proof.
  intros Hm; destruct e as [i | key]; cbn [step];
    [now apply isMoving_update|].
  unfold handleAnimationComplete.
  destruct (String.prefix "jiwatron-attack" key).
  - change (isMoving (with_isAttacking false p)) with (isMoving p).
    now rewrite Hm.
  - destruct (String.eqb key "jiwatron-hurt").
    + now destruct (playIdle_frame (with_isHurt false p)) as (_ & _ & ->).
    + now destruct (String.eqb key "jiwatron-death").
Qed.

(** [isMoving] is only ever set: once true it is true after every event, so
    from the first movement on the completion of an attack leaves the
    animation as it is instead of starting the idle animation. *)
Theorem isMoving_sticky (evs : list Event) (p : t) (key : string) :
  isMoving p = true ->
  isMoving (run evs p) = true
  /\ (String.prefix "jiwatron-attack" key = true ->
      anim (handleAnimationComplete key (run evs p)) = anim (run evs p)).
Proof.
  intros Hm.
  assert (isMoving (run evs p) = true) as Hrun.
  { revert p Hm; induction evs as [|e evs IH]; intros p Hm; [exact Hm|].
    rewrite run_cons; apply IH, isMoving_step, Hm. }
  split; [exact Hrun|].
  intros Hk; unfold handleAnimationComplete; rewrite Hk.
  change (isMoving (with_isAttacking false (run evs p)))
    with (isMoving (run evs p)).
  now rewrite Hrun.
Qed.

Lemma isMoving_sticky_witness :
  isMoving (run [Tick noInput; Tick pressJ] walkingActor) = true
  /\ (String.prefix "jiwatron-attack" "jiwatron-attack1" = true ->
      anim (handleAnimationComplete "jiwatron-attack1"
              (run [Tick noInput; Tick pressJ] walkingActor))
      = anim (run [Tick noInput; Tick pressJ] walkingActor)).
Proof.
  apply isMoving_sticky; reflexivity.
Defined.

End PlayerFacts.

(** ** The level scene: proofs *)

Module MapSceneFacts.

Import MapScene MapSceneSpec.
Local Open Scope string_scope.
Local Open Scope list_scope.
Local Open Scope float_scope.

(** *** Loops *)

Lemma forLoop_invariant {St : Type} (P : St -> Prop)
  (body : float -> St -> St * bool) (hi step : float) :
  (forall v s, P s -> P (fst (body v s))) ->
  forall fuel v s, P s -> P (fst (forLoop fuel v hi step body s)).
Proof.
  intros Hbody; induction fuel as [|fuel IH]; intros v s Hs; cbn.
  - exact Hs.
  - destruct (v <? hi); [|exact Hs].
    specialize (Hbody v s Hs).
    destruct (body v s) as [s' [|]]; cbn in Hbody; auto.
Qed.

Lemma forLoop_more_fuel {St : Type} (body body' : float -> St -> St * bool)
  (hi step : float) :
  (forall v s s', body v s = (s', true) -> body' v s = (s', true)) ->
  forall n m v s r,
    (n <= m)%nat ->
    forLoop n v hi step body s = (r, true) ->
    forLoop m v hi step body' s = (r, true).
Proof.
  intros Hbody; induction n as [|n IH]; intros m v s r Hle; cbn.
  - discriminate.
  - destruct m as [|m]; [lia|]; cbn.
    destruct (v <? hi); [|trivial].
    destruct (body v s) as [s' [|]] eqn:Hb; [|discriminate].
    rewrite (Hbody _ _ _ Hb); apply IH; lia.
Qed.

Lemma forLoop_finishes {St : Type} (body : float -> St -> St * bool)
  (hi step : float) :
  (forall v s, snd (body v s) = true) ->
  forall n v s,
    leaves n v hi step = true ->
    snd (forLoop (S n) v hi step body s) = true.
Proof.
  intros Hbody; induction n as [|n IH]; intros v s Hn;
    unfold leaves in Hn; apply negb_true_iff in Hn.
  - cbn in *; now rewrite Hn.
  - cbn [forLoop]; destruct (v <? hi); [|reflexivity].
    specialize (Hbody v s); destruct (body v s) as [s' b]; cbn in Hbody.
    subst b; apply IH; unfold leaves.
    cbn [advance] in Hn; now rewrite Hn.
Qed.

Lemma gridRects_finishes (size : float) (n : nat) (points : list Point) :
  leaves n (JS.Math_min (map x points)) (JS.Math_max (map x points)) size
  = true ->
  leaves n (JS.Math_min (map y points)) (JS.Math_max (map y points)) size
  = true ->
  snd (gridRects size (S n) points) = true.
Proof.
  intros Hx Hy; unfold gridRects.
  apply forLoop_finishes; [|exact Hx].
  intros gx rects; apply forLoop_finishes; [|exact Hy].
  reflexivity.
Qed.

Lemma gridRects_more_fuel (size : float) (points : list Point)
  (n m : nat) (r : list Rectangle) :
  (n <= m)%nat ->
  gridRects size n points = (r, true) -> gridRects size m points = (r, true).
Proof.
  intros Hle; unfold gridRects.
  apply forLoop_more_fuel; [|exact Hle].
  intros v s s'; apply forLoop_more_fuel; [|exact Hle].
  trivial.
Qed.

(** *** Every cell comes from a centre that tests inside *)

Lemma pushCell_inside (size : float) (points : list Point) (gx gy : float)
  (rects : list Rectangle) :
  Forall (fun c => centreInside points c /\ width c = size /\ height c = size)
    rects ->
  Forall (fun c => centreInside points c /\ width c = size /\ height c = size)
    (pushCell size points gx gy rects).
Proof.
  intros H; unfold pushCell.
  destruct (isPointInPolygon (gx + size / 2) (gy + size / 2) points) eqn:Hin;
    [|exact H].
  apply Forall_app; split; [exact H|].
  constructor; [|constructor].
  repeat split; exact Hin.
Qed.

Lemma gridRects_inside (size : float) (fuel : nat) (points : list Point) :
  Forall (fun c => centreInside points c /\ width c = size /\ height c = size)
    (fst (gridRects size fuel points)).
Proof.
  unfold gridRects.
  apply forLoop_invariant; [|constructor].
  intros gx rects Hr.
  apply forLoop_invariant; [|exact Hr].
  intros gy rects' Hr'; cbn; now apply pushCell_inside.
Qed.

Lemma convertPolygon_inside (fuel : nat) (obj : TiledObject) :
  Forall (fun c =>
            exists ox oy poly,
              obj_x obj = Some ox /\ obj_y obj = Some oy
              /\ polygon obj = Some poly
              /\ centreInside (scenePoints ox oy poly) c
              /\ width c = rectSize /\ height c = rectSize)
    (fst (convertPolygon fuel obj)).
Proof.
  unfold convertPolygon.
  destruct (JS.falsy (obj_x obj) || JS.falsy (obj_y obj)); [constructor|].
  destruct (obj_x obj) as [ox|]; [|constructor].
  destruct (obj_y obj) as [oy|]; [|constructor].
  destruct (polygon obj) as [poly|]; [|constructor].
  eapply Forall_impl; [|apply gridRects_inside].
  intros c (Hc & Hw & Hh); exists ox, oy, poly; auto 10.
Qed.

Lemma convertAll_inside (fuel : nat) (objects polygons : list TiledObject) :
  (forall obj, In obj polygons -> In obj objects /\ collides obj = true) ->
  forall acc,
    Forall (producedBy objects) acc ->
    Forall (producedBy objects) (fst (convertAll fuel polygons acc)).
Proof.
  induction polygons as [|obj rest IH]; intros Hsub acc Hacc; cbn.
  - exact Hacc.
  - destruct (Hsub obj (or_introl eq_refl)) as [Hin Hcol].
    assert (Forall (producedBy objects) (fst (convertPolygon fuel obj)))
      as Hnew.
    { eapply Forall_impl; [|apply convertPolygon_inside].
      intros c (ox & oy & poly & H); exists obj, ox, oy, poly; auto. }
    destruct (convertPolygon fuel obj) as [rects [|]]; cbn in Hnew.
    + apply IH; [intros o Ho; apply Hsub; now right|].
      apply Forall_app; split; assumption.
    + cbn; apply Forall_app; split; assumption.
Qed.

(** C2.  Whatever the polygon, the cell size and the iteration budget, every
    rectangle the grid walk emits has the given size and a centre that
    [isPointInPolygon] classifies as inside the polygon walked; every
    rectangle [createCollisionObjects] registers is a [rectSize] cell whose
    centre tests inside the scene polygon of a collidable object of the
    layer; and the walk runs to its end within [n + 1] iterations per loop as
    soon as [n] increments take the loop variables across the bounding
    box. *)
Theorem cell_centres_inside :
  (forall size fuel points,
      Forall (fun c => centreInside points c
                       /\ width c = size /\ height c = size)
        (fst (gridRects size fuel points)))
  /\ (forall fuel objects,
        Forall (producedBy objects)
          (fst (createCollisionObjects fuel (Some objects))))
  /\ (forall size n points,
        leaves n (JS.Math_min (map x points)) (JS.Math_max (map x points)) size
        = true ->
        leaves n (JS.Math_min (map y points)) (JS.Math_max (map y points)) size
        = true ->
        snd (gridRects size (S n) points) = true).
Proof.
  split; [|split].
  - exact gridRects_inside.
  - intros fuel objects; cbn.
    apply convertAll_inside; [|constructor].
    intros obj Hobj; now apply filter_In in Hobj.
  - exact gridRects_finishes.
Qed.

Lemma cell_centres_inside_witness :
  Forall (fun c => centreInside square c /\ width c = 16 /\ height c = 16)
    (fst (gridRects 16 5 square))
  /\ Forall (producedBy [squareAt32])
       (fst (createCollisionObjects 5 (Some [squareAt32])))
  /\ snd (gridRects 16 3 square) = true.
Proof.
  destruct cell_centres_inside as (Hgrid & Hlayer & Hend).
  split; [apply Hgrid|].
  split; [apply Hlayer|].
  apply Hend; reflexivity.
Defined.

(** *** The 32 by 32 square *)

(** C8.  The square (0,0), (32,0), (32,32), (0,32) walked at resolution 16
    gives, for every budget of at least 3 iterations per loop, the four cells
    centred at (8,8), (8,24), (24,8), (24,24), in the order the loops visit
    them, and the walk runs to its end; the same cells come out of the Tiled
    object that places the square with its anchor at (32,32). *)
Theorem square_cells (fuel : nat) :
  (3 <= fuel)%nat ->
  gridRects rectSize fuel square = (squareCells, true)
  /\ convertPolygon fuel squareAt32 = (squareCells, true)
  /\ createCollisionObjects fuel (Some [squareAt32]) = (squareCells, true)
  /\ List.length squareCells = 4%nat
  /\ (forall c, In c squareCells <->
                In (centre c) [(8, 8); (24, 8); (8, 24); (24, 24)]
                /\ width c = 16 /\ height c = 16).
Proof.
  intros Hfuel.
  assert (gridRects rectSize fuel square = (squareCells, true)) as Hgrid.
  { apply (gridRects_more_fuel rectSize square 3 fuel); [exact Hfuel|].
    vm_compute; reflexivity. }
  assert (convertPolygon fuel squareAt32 = (squareCells, true)) as Hobj.
  { unfold convertPolygon.
    change (JS.falsy (obj_x squareAt32) || JS.falsy (obj_y squareAt32))
      with false.
    cbn [obj_x obj_y polygon squareAt32].
    replace (scenePoints 32 32
               [mkPoint (-32) (-32); mkPoint 0 (-32); mkPoint 0 0;
                mkPoint (-32) 0])
      with square by (vm_compute; reflexivity).
    exact Hgrid. }
  split; [exact Hgrid|].
  split; [exact Hobj|].
  split.
  { unfold createCollisionObjects.
    change (filter collides [squareAt32]) with [squareAt32].
    cbn [convertAll]; now rewrite Hobj. }
  split; [reflexivity|].
  intros [cx cy w h]; unfold squareCells, centre; cbn.
  split.
  - intros [H|[H|[H|[H|[]]]]]; inversion H; subst; auto 10.
  - intros ([H|[H|[H|[H|[]]]]] & -> & ->); inversion H; subst; auto.
Qed.

Lemma square_cells_witness :
  gridRects rectSize 5 square = (squareCells, true)
  /\ convertPolygon 5 squareAt32 = (squareCells, true)
  /\ createCollisionObjects 5 (Some [squareAt32]) = (squareCells, true)
  /\ List.length squareCells = 4%nat
  /\ (forall c, In c squareCells <->
                In (centre c) [(8, 8); (24, 8); (8, 24); (24, 24)]
                /\ width c = 16 /\ height c = 16).
Proof.
  apply square_cells; lia.
Defined.

(** *** The anchor test *)

Lemma convertAll_skip (fuel : nat) (obj : TiledObject)
  (before after : list TiledObject) :
  convertPolygon fuel obj = ([], true) ->
  forall acc,
    convertAll fuel (before ++ obj :: after) acc
    = convertAll fuel (before ++ after) acc.
Proof.
  intros Hskip; induction before as [|o before IH]; intros acc; cbn.
  - now rewrite Hskip, app_nil_r.
  - destruct (convertPolygon fuel o) as [rects [|]]; [apply IH | reflexivity].
Qed.

(** C10.  An object whose anchor [x] or [y] is missing or equal to 0 is
    skipped: whatever its polygon and properties, it contributes no rectangle,
    and the layer yields the same rectangles as it would without the
    object. *)
Theorem zero_anchor_skipped (fuel : nat) (obj : TiledObject)
  (before after : list TiledObject) :
  obj_x obj = None \/ obj_x obj = Some 0
  \/ obj_y obj = None \/ obj_y obj = Some 0 ->
  convertPolygon fuel obj = ([], true)
  /\ createCollisionObjects fuel (Some [obj]) = ([], true)
  /\ createCollisionObjects fuel (Some (before ++ obj :: after))
     = createCollisionObjects fuel (Some (before ++ after)).
Proof.
  intros Hanchor.
  assert (JS.falsy (obj_x obj) || JS.falsy (obj_y obj) = true) as Hfalsy.
  { destruct Hanchor as [H | [H | [H | H]]]; rewrite H;
      [reflexivity | reflexivity | apply orb_true_r | apply orb_true_r]. }
  assert (convertPolygon fuel obj = ([], true)) as Hskip
    by (unfold convertPolygon; now rewrite Hfalsy).
  assert (forall l1 l2,
             createCollisionObjects fuel (Some (l1 ++ obj :: l2))
             = createCollisionObjects fuel (Some (l1 ++ l2))) as Hlayer.
  { intros l1 l2; unfold createCollisionObjects.
    rewrite !filter_app; cbn [filter].
    destruct (collides obj); [|reflexivity].
    now apply convertAll_skip. }
  split; [exact Hskip|].
  split; [exact (Hlayer [] [])|].
  apply Hlayer.
Qed.

Lemma zero_anchor_skipped_witness :
  convertPolygon 5 squareAtOrigin = ([], true)
  /\ createCollisionObjects 5 (Some [squareAtOrigin]) = ([], true)
  /\ createCollisionObjects 5 (Some ([squareAt32] ++ squareAtOrigin :: []))
     = createCollisionObjects 5 (Some ([squareAt32] ++ [])).
Proof.
  apply zero_anchor_skipped.
  right; left; reflexivity.
Defined.

(** *** The obelisk *)

(** C7.  The split point [500 + 256 * 0.65] is the number 666.4.  An obelisk
    sprite gets depth 1000 and alpha 0.6 when the actor's [y] is strictly
    below the split point, and depth 50 and alpha 1 otherwise, in particular
    when the actor's [y] is the split point itself.  Every tick applies the
    rule to each registered sprite, with the actor as [update] has just left
    it. *)
Theorem obelisk_split_rule (player : option Player.t) (sprite : Sprite)
  (i : Player.Input) (sc : Scene) :
  String.prefix "obelisk_tower" (texture_key sprite) = true ->
  splitPoint = 666.4
  /\ depthSortedObjects (update i sc)
     = map (depthSort (MapScene.player (update i sc))) (depthSortedObjects sc)
  /\ (if playerY player <? 666.4
      then depth (depthSort player sprite) = 1000
           /\ alpha (depthSort player sprite) = 0.6
      else depth (depthSort player sprite) = 50
           /\ alpha (depthSort player sprite) = 1)
  /\ (playerY player = 666.4 ->
      depth (depthSort player sprite) = 50
      /\ alpha (depthSort player sprite) = 1).
Proof.
  intros Hkey.
  assert (splitPoint = 666.4) as Hsplit by reflexivity.
  split; [exact Hsplit|].
  split; [unfold update; now destruct (MapScene.player sc)|].
  unfold depthSort; rewrite Hkey, Hsplit.
  split.
  - destruct (playerY player <? 666.4); split; reflexivity.
  - intros ->; change (666.4 <? 666.4) with false; split; reflexivity.
Qed.

Lemma obelisk_split_rule_witness :
  splitPoint = 666.4
  /\ depthSortedObjects (update Player.noInput sceneAtSplit)
     = map (depthSort (MapScene.player (update Player.noInput sceneAtSplit)))
         (depthSortedObjects sceneAtSplit)
  /\ (depth (depthSort (Some (actorAt 666.4)) obelisk) = 50
      /\ alpha (depthSort (Some (actorAt 666.4)) obelisk) = 1)
  /\ (playerY (Some (actorAt 666.4)) = 666.4 ->
      depth (depthSort (Some (actorAt 666.4)) obelisk) = 50
      /\ alpha (depthSort (Some (actorAt 666.4)) obelisk) = 1).
Proof.
  exact (obelisk_split_rule (Some (actorAt 666.4)) obelisk Player.noInput
           sceneAtSplit eq_refl).
Defined.

(** *** The stone sectors *)

(** A stone sector sprite always gets depth 1000; its alpha is 0.7 while the
    actor's position lies in its footprint and 1 otherwise. *)
Theorem stone_sector_rule (player : option Player.t) (sprite : Sprite) :
  String.prefix "obelisk_tower" (texture_key sprite) = false ->
  String.prefix "stone_sector" (texture_key sprite) = true ->
  depth (depthSort player sprite) = 1000
  /\ alpha (depthSort player sprite)
     = (if inFootprint player sprite then 0.7 else 1).
Proof.
  intros Hob Hst; unfold depthSort, inFootprint; rewrite Hob, Hst.
  unfold stoneSectorWidth, stoneSectorHeight.
  change (sprite_x (setDepth 1000 sprite)) with (sprite_x sprite).
  change (sprite_y (setDepth 1000 sprite)) with (sprite_y sprite).
  destruct ((sprite_x sprite <=? playerX player)
            && (playerX player <=? sprite_x sprite + 259)
            && (sprite_y sprite - 500 <=? playerY player)
            && (playerY player <=? sprite_y sprite));
    split; reflexivity.
Qed.

Lemma stone_sector_rule_witness :
  depth (depthSort (Some (actorAt 300)) stoneSector) = 1000
  /\ alpha (depthSort (Some (actorAt 300)) stoneSector) = 0.7.
Proof.
  exact (stone_sector_rule (Some (actorAt 300)) stoneSector eq_refl eq_refl).
Defined.

End MapSceneFacts.

(** ** Facts about binary64 comparisons *)

Module FloatFacts.

Local Open Scope float_scope.

Lemma SFcompare_Eq_eq (f1 f2 : SpecFloat.spec_float) :
  SpecFloat.SFcompare f1 f2 = Some Eq ->
  f1 = f2 \/ (exists s1 s2, f1 = S754_zero s1 /\ f2 = S754_zero s2).
Proof.
  destruct f1 as [s1 | s1 | | s1 m1 e1], f2 as [s2 | s2 | | s2 m2 e2];
    cbn; intros H;
    repeat match goal with s : bool |- _ => destruct s end;
    try discriminate H;
    try (right; do 2 eexists; split; reflexivity);
    try (left; reflexivity).
  - destruct (Z.compare e1 e2) eqn:He; try discriminate H.
    apply Z.compare_eq in He; subst e2.
    injection H as H; apply (f_equal CompOpp) in H; cbn in H.
    rewrite CompOpp_involutive in H.
    apply Pos.compare_eq in H; subst; now left.
  - destruct (Z.compare e1 e2) eqn:He; try discriminate H.
    apply Z.compare_eq in He; subst e2.
    injection H as H; apply Pos.compare_eq in H; subst; now left.
Qed.

(** [g == c] for a number [c] other than zero means the two are the same
    number, bit for bit. *)
Lemma eqb_true_eq (g c : float) :
  (g =? c) = true -> is_zero c = false -> g = c.
Proof.
  unfold is_zero; rewrite !eqb_spec; unfold SpecFloat.SFeqb.
  intros Hg Hz; apply Prim2SF_inj.
  destruct (SpecFloat.SFcompare (Prim2SF g) (Prim2SF c)) as [[| |]|] eqn:Hc;
    try discriminate.
  apply SFcompare_Eq_eq in Hc as [Heq | (s1 & s2 & _ & H2)]; [exact Heq|].
  rewrite H2 in Hz; discriminate.
Qed.

Lemma ltb_irrefl (v : float) : (v <? v) = false.
Proof.
  rewrite ltb_spec; unfold SpecFloat.SFltb.
  destruct (Prim2SF v) as [s | s | | s m e]; cbn; try reflexivity.
  - now destruct s.
  - destruct s; rewrite Z.compare_refl, Pos.compare_cont_refl; reflexivity.
Qed.

Lemma ltb_neg_infinity (v : float) : (v <? neg_infinity) = false.
Proof.
  rewrite ltb_spec; unfold SpecFloat.SFltb.
  change (Prim2SF neg_infinity) with (S754_infinity true).
  destruct (Prim2SF v) as [s | s | | s m e]; cbn; try reflexivity.
  now destruct s.
Qed.

Lemma infinity_ltb (v : float) : (infinity <? v) = false.
Proof.
  rewrite ltb_spec; unfold SpecFloat.SFltb.
  change (Prim2SF infinity) with (S754_infinity false).
  destruct (Prim2SF v) as [s | s | | s m e]; cbn; try reflexivity.
  now destruct s.
Qed.

(** A number that is at least a positive number is truthy. *)
Lemma leb_truthy (c g : float) :
  (0 <? c) = true -> (c <=? g) = true -> JS.falsy (Some g) = false.
Proof.
  unfold JS.falsy, is_nan.
  rewrite ltb_spec, leb_spec, !eqb_spec.
  unfold SpecFloat.SFltb, SpecFloat.SFleb, SpecFloat.SFeqb.
  change (Prim2SF 0) with (S754_zero false).
  destruct (Prim2SF c) as [sc | sc | | sc mc ec],
           (Prim2SF g) as [sg | sg | | sg mg eg]; cbn;
    repeat match goal with s : bool |- _ => destruct s end;
    cbn; try discriminate; try reflexivity.
  all: intros _ _; rewrite Z.compare_refl, Pos.compare_cont_refl; reflexivity.
Qed.

Lemma memFloat_In (z : float) (l : list float) :
  MoreSpec.memFloat z l = true -> In z l.
Proof.
  unfold MoreSpec.memFloat; intros H.
  apply existsb_exists in H as (w & Hin & Heq).
  apply FloatAxioms.Leibniz.eqb_spec in Heq; now subst.
Qed.

End FloatFacts.

(** ** The actor: further properties *)

Module PlayerMore.

Import Player PlayerSpec PlayerFacts MoreSpec.
Local Open Scope string_scope.
Local Open Scope list_scope.
Local Open Scope float_scope.

(** *** What each method can have done *)

Lemma attack_frame (key : string) (p : t) :
  attack key p = p
  \/ attack key p = play key (setVelocity 0 (with_isAttacking true p)).
Proof.
  unfold attack.
  destruct (isAttacking p || isHurt p || isDead p
            || (0 <? attackCooldown p)); auto.
Qed.

Lemma playHurt_frame (p : t) :
  playHurt p = p
  \/ playHurt p = play "jiwatron-hurt" (setVelocity 0 (with_isHurt true p)).
Proof. unfold playHurt; destruct (isHurt p || isDead p); auto. Qed.

Lemma playDeath_frame (p : t) :
  playDeath p = p
  \/ playDeath p = play "jiwatron-death" (setVelocity 0 (with_isDead true p)).
Proof. unfold playDeath; destruct (isDead p); auto. Qed.

Lemma handleAttacks_frame (i : Input) (p : t) :
  handleAttacks i p = p
  \/ exists key,
       In key ["jiwatron-attack1"; "jiwatron-attack2"; "jiwatron-attack3"]
       /\ handleAttacks i p
          = play key (setVelocity 0 (with_isAttacking true p)).
Proof.
  unfold handleAttacks.
  destruct (negb (isAttacking p) && negb (isHurt p)); [|now left].
  destruct (JustDown_J i);
    [destruct (attack_frame "jiwatron-attack1" p) as [-> | ->];
     [now left | right; eexists; split; [|reflexivity]; cbn; auto]|].
  destruct (JustDown_K i);
    [destruct (attack_frame "jiwatron-attack2" p) as [-> | ->];
     [now left | right; eexists; split; [|reflexivity]; cbn; auto]|].
  destruct (JustDown_L i);
    [destruct (attack_frame "jiwatron-attack3" p) as [-> | ->];
     [now left | right; eexists; split; [|reflexivity]; cbn; auto]|].
  now left.
Qed.

Lemma handleMovement_frame (i : Input) (p : t) :
  handleMovement i p = p
  \/ handleMovement i p = steer i p
  \/ handleMovement i p = with_anim "jiwatron-walk" (steer i p)
  \/ handleMovement i p = with_anim "jiwatron-idle" (steer i p).
Proof.
  rewrite handleMovement_steer.
  destruct (negb (isAttacking p) && negb (isHurt p)); [|now left].
  destruct (movementHeld i).
  - destruct (playWalk_cases (steer i p)) as [-> | (_ & _ & ->)]; auto.
  - destruct (playIdle_cases (steer i p)) as [-> | (_ & _ & ->)]; auto.
Qed.

Lemma resetCharacter_frame (cx cy : float) (p : t) :
  body (resetCharacter cx cy p)
  = mkBody (velocityX (body p)) (velocityY (body p)) true
  /\ (anim (resetCharacter cx cy p) = anim p
      \/ anim (resetCharacter cx cy p) = "jiwatron-idle").
Proof.
  unfold resetCharacter.
  destruct (playIdle_cases
              (setPosition cx cy
                 (setBodyEnable true
                    (with_attackCooldown 0
                       (with_isAttacking false
                          (with_isHurt false (with_isDead false p)))))))
    as [-> | (_ & _ & ->)]; split; auto.
Qed.

(** *** The speeds the controller sets *)

Lemma velocityLevels_refl (p : t) : velocityLevels p p.
Proof. split; left; reflexivity. Qed.

Lemma velocityLevels_steer (o : t) (i : Input) (p : t) :
  velocityLevels o (steer i p).
Proof.
  destruct (steer_effect i p) as (Hx & Hy & _); unfold velocityLevels.
  rewrite Hx, Hy; unfold speedLevel.
  destruct (isDown_A i), (isDown_D i), (isDown_W i), (isDown_S i);
    split; right; auto.
Qed.

Lemma velocityLevels_zero (o p : t) : velocityLevels o (setVelocity 0 p).
Proof. split; right; left; reflexivity. Qed.

Lemma velocityLevels_update (o : t) (i : Input) (p : t) :
  velocityLevels o p -> velocityLevels o (update i p).
Proof.
  intros HV; unfold update.
  assert (velocityLevels o (tickCooldown p)) as HT
    by (unfold tickCooldown; now destruct (0 <? attackCooldown p)).
  set (q := tickCooldown p) in *.
  destruct (isDead q).
  - destruct (JustDown_R i); [|exact HT].
    unfold velocityLevels.
    destruct (resetCharacter_frame (centerX i) (centerY i) q) as [-> _].
    exact HT.
  - destruct (JustDown_H i).
    { destruct (playHurt_frame q) as [-> | ->];
        [exact HT | apply velocityLevels_zero]. }
    destruct (JustDown_P i).
    { destruct (playDeath_frame q) as [-> | ->];
        [exact HT | apply velocityLevels_zero]. }
    assert (velocityLevels o (handleAttacks i q)) as HA.
    { destruct (handleAttacks_frame i q) as [-> | (key & _ & ->)];
        [exact HT | apply velocityLevels_zero]. }
    destruct (handleMovement_frame i (handleAttacks i q))
      as [-> | [-> | [-> | ->]]];
      [exact HA | | |]; apply velocityLevels_steer.
Qed.

Lemma velocityLevels_step (o : t) (e : Event) (p : t) :
  velocityLevels o p -> velocityLevels o (step e p).
Proof.
  intros HV; destruct e as [i | key]; cbn [step];
    [now apply velocityLevels_update|].
  unfold handleAnimationComplete.
  destruct (String.prefix "jiwatron-attack" key).
  - destruct (negb (isMoving (with_isAttacking false p))); [|exact HV].
    unfold velocityLevels.
    now destruct (playIdle_frame (with_isAttacking false p)) as (-> & _ & _).
  - destruct (String.eqb key "jiwatron-hurt").
    + unfold velocityLevels.
      now destruct (playIdle_frame (with_isHurt false p)) as (-> & _ & _).
    + destruct (String.eqb key "jiwatron-death"); [|exact HV].
      split; right; left; reflexivity.
Qed.

(** One event (a tick with any keys, or the completion of any animation)
    leaves each component of the velocity as it was or sets it to 0, 150 or
    -150: the controller writes no other speed, and moving along both axes at
    once gives 150 on each axis. *)
Theorem velocity_levels (e : Event) (p : t) :
  (velocityX (body (step e p)) = velocityX (body p)
   \/ velocityX (body (step e p)) = 0
   \/ velocityX (body (step e p)) = 150
   \/ velocityX (body (step e p)) = -150)
  /\ (velocityY (body (step e p)) = velocityY (body p)
      \/ velocityY (body (step e p)) = 0
      \/ velocityY (body (step e p)) = 150
      \/ velocityY (body (step e p)) = -150).
Proof. exact (velocityLevels_step p e p (velocityLevels_refl p)). Qed.

(** *** Input is ignored during an attack and while hurt *)

(** While a reachable actor is attacking or hurt (and not dead), a tick that
    carries neither the hurt nor the death trigger changes nothing, whatever
    movement and attack keys are down: velocity, facing, animation and flags
    stay as they are. *)
Theorem busy_ignores_input (p : t) (i : Input) :
  reachable p -> busy p = true -> quiet i = true -> update i p = p.
Proof.
  intros Hp Hb Hq.
  pose proof (inv_cooldown p (Inv_reachable p Hp)) as Hc.
  unfold busy in Hb; apply andb_true_iff in Hb as [Hd Hb].
  apply negb_true_iff in Hd.
  unfold quiet in Hq; apply andb_true_iff in Hq as [Hh Hpp].
  apply negb_true_iff in Hh, Hpp.
  unfold update; rewrite (tickCooldown_id p Hc), Hd, Hh, Hpp.
  assert (negb (isAttacking p) && negb (isHurt p) = false) as Hg
    by (destruct (isAttacking p), (isHurt p); cbn in *; congruence).
  rewrite handleAttacks_attackKey, Hg, handleMovement_steer.
  now rewrite Hg.
Qed.

Lemma busy_ignores_input_witness : update holdD_pressJ hurtActor = hurtActor.
Proof.
  apply busy_ignores_input; try reflexivity.
  apply reachable_examples.
Defined.

(** *** The animations the actor shows *)

Lemma jiwatronKeys_attack (key : string) :
  In key ["jiwatron-attack1"; "jiwatron-attack2"; "jiwatron-attack3"] ->
  In key jiwatronKeys.
Proof.
  intros [<- | [<- | [<- | []]]]; cbn; auto 10.
Qed.

Lemma anim_update (i : Input) (p : t) :
  In (anim p) jiwatronKeys -> In (anim (update i p)) jiwatronKeys.
Proof.
  intros HA; unfold update.
  assert (In (anim (tickCooldown p)) jiwatronKeys) as HT
    by (unfold tickCooldown; now destruct (0 <? attackCooldown p)).
  set (q := tickCooldown p) in *.
  destruct (isDead q).
  - destruct (JustDown_R i); [|exact HT].
    destruct (resetCharacter_frame (centerX i) (centerY i) q)
      as [_ [-> | ->]]; [exact HT | cbn; auto 10].
  - destruct (JustDown_H i).
    { destruct (playHurt_frame q) as [-> | ->]; [exact HT | cbn; auto 10]. }
    destruct (JustDown_P i).
    { destruct (playDeath_frame q) as [-> | ->]; [exact HT | cbn; auto 10]. }
    assert (In (anim (handleAttacks i q)) jiwatronKeys) as HK.
    { destruct (handleAttacks_frame i q) as [-> | (key & Hkey & ->)];
        [exact HT | now apply jiwatronKeys_attack]. }
    destruct (steer_flags i (handleAttacks i q)) as (_ & _ & _ & _ & _ & Hs).
    destruct (handleMovement_frame i (handleAttacks i q))
      as [-> | [-> | [-> | ->]]];
      [exact HK | now rewrite Hs | cbn; auto 10 | cbn; auto 10].
Qed.

Lemma anim_step (e : Event) (p : t) :
  In (anim p) jiwatronKeys -> In (anim (step e p)) jiwatronKeys.
Proof.
  intros HA; destruct e as [i | key]; cbn [step];
    [now apply anim_update|].
  unfold handleAnimationComplete.
  destruct (String.prefix "jiwatron-attack" key).
  - destruct (negb (isMoving (with_isAttacking false p))); [|exact HA].
    destruct (playIdle_cases (with_isAttacking false p))
      as [-> | (_ & _ & ->)]; [exact HA | cbn; auto 10].
  - destruct (String.eqb key "jiwatron-hurt").
    + destruct (playIdle_cases (with_isHurt false p))
        as [-> | (_ & _ & ->)]; [exact HA | cbn; auto 10].
    + destruct (String.eqb key "jiwatron-death"); exact HA.
Qed.

Lemma anim_reachable (p : t) : reachable p -> In (anim p) jiwatronKeys.
Proof.
  induction 1 as [px py | e p _ IH]; [cbn; auto 10 | now apply anim_step].
Qed.

(** The animation a reachable actor shows is one of the seven that
    [createJiwatronAnimations] creates, and it plays once (repeat 0) exactly
    when [handleAnimationComplete] has a case for its key: the two looping
    animations, idle and walk, are the ones the handler ignores. *)
Theorem plays_created_animations (p : t) :
  reachable p ->
  exists a,
    In a PreloaderScene.createJiwatronAnimations
    /\ PreloaderScene.key a = anim p
    /\ handled (anim p) = (PreloaderScene.repeat a =? 0).
Proof.
  intros Hp; pose proof (anim_reachable p Hp) as HA.
  unfold jiwatronKeys in HA; apply in_map_iff in HA as (a & Hkey & Hin).
  exists a; split; [exact Hin|]; split; [exact Hkey|].
  rewrite <- Hkey; cbn in Hin.
  repeat (destruct Hin as [<- | Hin]; [reflexivity|]).
  destruct Hin.
Qed.

Lemma plays_created_animations_witness :
  exists a,
    In a PreloaderScene.createJiwatronAnimations
    /\ PreloaderScene.key a = anim attackingActor
    /\ handled (anim attackingActor) = (PreloaderScene.repeat a =? 0).
Proof.
  apply plays_created_animations.
  apply reachable_examples.
Defined.

(** *** The same keys for another frame *)

(** A tick is idempotent as long as Reset is not pressed: running [update]
    a second time with the same keys leaves a reachable actor as the first
    run left it (a trigger that was accepted is refused the second time, and
    the movement block writes the same velocity, facing and animation). *)
Theorem update_idempotent (p : t) (i : Input) :
  reachable p -> JustDown_R i = false ->
  update i (update i p) = update i p.
Proof.
  intros Hp Hr.
  pose proof (inv_cooldown p (Inv_reachable p Hp)) as Hc.
  destruct p as [px py fl [vx vy en] an mv att hu de cd].
  cbn in Hc; subst cd.
  destruct i as [w a s d j k l h pp r cx cy]; cbn in Hr; subst r.
  destruct de, hu, att, h, pp; try reflexivity;
    destruct j, k, l, w, a, s, d; reflexivity.
Qed.

Lemma update_idempotent_witness :
  update holdD_pressJ (update holdD_pressJ walkingActor)
  = update holdD_pressJ walkingActor.
Proof.
  apply update_idempotent; [|reflexivity].
  apply reachable_examples.
Defined.

End PlayerMore.

(** ** The animated scenery: proofs *)

Module MapObjectsFacts.

Import MapObjects MoreSpec FloatFacts.
Local Open Scope string_scope.
Local Open Scope list_scope.
Local Open Scope float_scope.

(** Case analysis on [g == c]: when the test succeeds, [g] is [c]. *)
Ltac gid_case g c :=
  let E := fresh "E" in
  destruct (g =? c) eqn:E;
  [apply eqb_true_eq in E; [subst g | reflexivity] |].

Lemma plant_truthy (g : float) :
  (11215 <=? g) = true -> JS.falsy (Some g) = false.
Proof. apply leb_truthy; reflexivity. Qed.

Lemma stone_truthy (g : float) :
  (11223 <=? g) = true -> JS.falsy (Some g) = false.
Proof. apply leb_truthy; reflexivity. Qed.

(** *** Which objects give a sprite *)

Lemma null_iff_unknown (obj : TileObject) :
  createAnimatedSprite obj = None <-> knownObject obj = false.
Proof.
  unfold knownObject.
  destruct obj as [[g|] ox oy w h]; [|split; reflexivity].
  cbn [gid].
  gid_case g 11169; [split; intros H; vm_compute in H; discriminate H|].
  gid_case g 11177; [split; intros H; vm_compute in H; discriminate H|].
  gid_case g 11185; [split; intros H; vm_compute in H; discriminate H|].
  gid_case g 11193; [split; intros H; vm_compute in H; discriminate H|].
  gid_case g 11209; [split; intros H; vm_compute in H; discriminate H|].
  gid_case g 11223; [split; intros H; vm_compute in H; discriminate H|].
  gid_case g 11224; [split; intros H; vm_compute in H; discriminate H|].
  gid_case g 11225; [split; intros H; vm_compute in H; discriminate H|].
  unfold createAnimatedSprite, selectFrame, knownGid, listedGids.
  unfold JSOps.strictEq, JSOps.truthyBetween; cbn [existsb gid].
  rewrite E, E0, E1, E2, E3, E4, E5, E6; cbn [orb].
  destruct (11215 <=? g) eqn:Hlo; cbn [andb].
  - rewrite (plant_truthy g Hlo); cbn [negb andb].
    destruct (g <=? 11221); cbn.
    + split; discriminate.
    + destruct (11223 <=? g), (g <=? 11225); cbn; split; reflexivity.
  - rewrite !andb_false_r; cbn.
    match goal with
    | |- context [if ?c then ("", "") else ("", "")] => destruct c
    end; cbn; split; reflexivity.
Qed.

(** [createAnimatedSprite] returns null exactly for an object without a gid
    and for a gid that is neither one of the eight listed ones nor in the
    plant range 11215..11221; a gid inside the stone range that is not one of
    11223, 11224, 11225 gives null as well. *)
Theorem sprite_iff_known_gid (obj : TileObject) :
  createAnimatedSprite obj = None
  <-> match gid obj with
      | Some g => knownGid g = false
      | None => True
      end.
Proof.
  rewrite null_iff_unknown; unfold knownObject.
  destruct (gid obj); [reflexivity | split; auto].
Qed.

(** *** The two groups of sprites *)

Lemma spritesOf_objects (objects : list TileObject) :
  List.length (spritesOf (Some objects))
  = List.length (filter knownObject objects)
  /\ Forall (fun s => MapScene.depth (sprite s) = 0
                      /\ MapScene.alpha (sprite s) = 1
                      /\ originX s = 0 /\ originY s = 1)
       (spritesOf (Some objects)).
Proof.
  induction objects as [|obj rest [IHlen IHall]]; cbn [spritesOf flat_map];
    [split; [reflexivity | constructor]|].
  cbn [filter].
  destruct (createAnimatedSprite obj) as [s|] eqn:Hs.
  - assert (knownObject obj = true) as ->.
    { destruct (knownObject obj) eqn:Hk; [reflexivity|].
      apply null_iff_unknown in Hk; congruence. }
    cbn [app List.length]; split; [now f_equal|].
    constructor; [|exact IHall].
    revert Hs; unfold createAnimatedSprite.
    destruct (selectFrame (gid obj)) as [animKey initialFrame].
    destruct (JSOps.truthyString animKey
              && JSOps.truthyString initialFrame);
      [|destruct (JSOps.truthyString initialFrame); [|discriminate]];
      intros H; injection H as <-; repeat split; reflexivity.
  - apply null_iff_unknown in Hs; rewrite Hs; cbn [app].
    split; [exact IHlen | exact IHall].
Qed.

(** [createAnimatedObjects] makes one sprite for every object of a layer
    whose gid is known, and none for the others or for a missing layer; the
    sprites of the layer 'animation_object' are all at depth 5, those of
    'animation_object2' are left at depth 0 until the first [update]; every
    sprite is opaque and has its origin at the bottom left. *)
Theorem animated_groups
  (objectLayer1 objectLayer2 : option (list TileObject)) :
  let groups := createAnimatedObjects objectLayer1 objectLayer2 in
  List.length (fst groups)
  = List.length (filter knownObject (layerObjects objectLayer1))
  /\ List.length (snd groups)
     = List.length (filter knownObject (layerObjects objectLayer2))
  /\ Forall (fun s => MapScene.depth (sprite s) = 5
                      /\ MapScene.alpha (sprite s) = 1
                      /\ originX s = 0 /\ originY s = 1) (fst groups)
  /\ Forall (fun s => MapScene.depth (sprite s) = 0
                      /\ MapScene.alpha (sprite s) = 1
                      /\ originX s = 0 /\ originY s = 1) (snd groups).
Proof.
  cbn zeta; unfold createAnimatedObjects; cbn [fst snd].
  rewrite length_map.
  assert (forall layer,
            List.length (spritesOf layer)
            = List.length (filter knownObject (layerObjects layer))
            /\ Forall (fun s => MapScene.depth (sprite s) = 0
                                /\ MapScene.alpha (sprite s) = 1
                                /\ originX s = 0 /\ originY s = 1)
                 (spritesOf layer)) as Hlayer.
  { intros [objects|]; [apply spritesOf_objects|].
    split; [reflexivity | constructor]. }
  destruct (Hlayer objectLayer1) as [Hlen1 Hall1].
  destruct (Hlayer objectLayer2) as [Hlen2 Hall2].
  split; [exact Hlen1|]; split; [exact Hlen2|]; split; [|exact Hall2].
  apply Forall_map; eapply Forall_impl; [|exact Hall1].
  intros s (_ & Ha & Hx & Hy); repeat split; assumption.
Qed.

(** *** The frames of a sprite *)

Lemma memString_In (k : string) (l : list string) :
  memString k l = true -> In k l.
Proof.
  unfold memString; intros H.
  apply existsb_exists in H as (k' & Hin & Heq).
  apply String.eqb_eq in Heq; now subst.
Qed.

Lemma created_framesOk (obj : TileObject) (s : NewSprite) :
  createAnimatedSprite obj = Some s ->
  framesOk (JSOps.strictEq (gid obj) 11185) (stoneObject (gid obj)) s = true.
Proof.
  destruct obj as [[g|] ox oy w h]; [|discriminate].
  cbn [gid].
  gid_case g 11169;
    [intros H; vm_compute in H; injection H as <-; vm_compute; reflexivity|].
  gid_case g 11177;
    [intros H; vm_compute in H; injection H as <-; vm_compute; reflexivity|].
  gid_case g 11185;
    [intros H; vm_compute in H; injection H as <-; vm_compute; reflexivity|].
  gid_case g 11193;
    [intros H; vm_compute in H; injection H as <-; vm_compute; reflexivity|].
  gid_case g 11209;
    [intros H; vm_compute in H; injection H as <-; vm_compute; reflexivity|].
  gid_case g 11223;
    [intros H; vm_compute in H; injection H as <-; vm_compute; reflexivity|].
  gid_case g 11224;
    [intros H; vm_compute in H; injection H as <-; vm_compute; reflexivity|].
  gid_case g 11225;
    [intros H; vm_compute in H; injection H as <-; vm_compute; reflexivity|].
  unfold createAnimatedSprite, selectFrame, stoneObject, stoneGid.
  unfold JSOps.strictEq, JSOps.truthyBetween; cbn [gid].
  rewrite E, E0, E1, E2, E3, E4, E5, E6; cbn [orb].
  match goal with
  | |- context [if ?c then ("plant_tree_anim", _) else _] => destruct c
  end.
  - intros H; cbn in H; injection H as <-; vm_compute; reflexivity.
  - match goal with
    | |- context [if ?c then ("", "") else ("", "")] => destruct c
    end; discriminate.
Qed.

Lemma created_frames (obj : TileObject) (s : NewSprite) (k : string) :
  createAnimatedSprite obj = Some s -> In k (shownKeys s) ->
  In k loadedImages
  /\ String.prefix "obelisk_tower" k = JSOps.strictEq (gid obj) 11185
  /\ String.prefix "stone_sector" k = stoneObject (gid obj).
Proof.
  intros Hs Hk; pose proof (created_framesOk obj s Hs) as Hok.
  unfold framesOk in Hok; apply andb_true_iff in Hok as [Hall _].
  rewrite forallb_forall in Hall; specialize (Hall k Hk).
  apply andb_true_iff in Hall as [Hall Hst].
  apply andb_true_iff in Hall as [Hmem Hob].
  apply Bool.eqb_prop in Hob, Hst.
  split; [now apply memString_In | split; assumption].
Qed.

Lemma created_placed (obj : TileObject) (s : NewSprite) :
  createAnimatedSprite obj = Some s ->
  MapScene.sprite_x (sprite s) = JSOps.orElse (x obj) 0
  /\ MapScene.sprite_y (sprite s) = JSOps.orElse (y obj) 0.
Proof.
  unfold createAnimatedSprite.
  destruct (selectFrame (gid obj)) as [animKey initialFrame].
  destruct (JSOps.truthyString animKey && JSOps.truthyString initialFrame);
    [|destruct (JSOps.truthyString initialFrame); [|discriminate]];
    intros H; injection H as <-; split; reflexivity.
Qed.

(** Every texture a created sprite ever shows has been loaded by one of the
    two preloads, and the texture it is created with is the first frame of
    the animation it plays. *)
Theorem frames_are_loaded (obj : TileObject) (s : NewSprite) :
  createAnimatedSprite obj = Some s ->
  hd_error (shownKeys s) = Some (MapScene.texture_key (sprite s))
  /\ forall k, In k (shownKeys s) -> In k loadedImages.
Proof.
  intros Hs; split.
  - pose proof (created_framesOk obj s Hs) as Hok.
    unfold framesOk in Hok; apply andb_true_iff in Hok as [_ Hhd].
    destruct (shownKeys s) as [|k rest]; [discriminate|].
    apply String.eqb_eq in Hhd; now subst.
  - intros k Hk; now destruct (created_frames obj s k Hs Hk).
Qed.

Lemma frames_are_loaded_witness :
  hd_error (shownKeys plantSprite)
  = Some (MapScene.texture_key (sprite plantSprite))
  /\ forall k, In k (shownKeys plantSprite) -> In k loadedImages.
Proof.
  apply (frames_are_loaded plantObject).
  reflexivity.
Defined.

(** *** From the gid to the depth *)

(** Whatever frame of its animation a sprite of the depth-sorted layer
    shows, and whatever depth and alpha it had before, [update] gives it a
    depth fixed by the gid of its Tiled object:
    the obelisk (gid 11185) gets 1000 or 50 by the split rule, a stone sector
    (gid 11223, 11224 or 11225) gets 1000, and any other sprite the row
    [floor(y / 32)] of the object's [y] (0 when the object has none). *)
Theorem depth_by_gid (obj : TileObject) (s : NewSprite)
  (player : option Player.t) (shown : MapScene.Sprite) :
  createAnimatedSprite obj = Some s ->
  In (MapScene.texture_key shown) (shownKeys s) ->
  MapScene.sprite_y shown = MapScene.sprite_y (sprite s) ->
  MapScene.depth (MapScene.depthSort player shown)
  = if JSOps.strictEq (gid obj) 11185
    then if MapScene.playerY player <? 666.4 then 1000 else 50
    else if stoneObject (gid obj) then 1000
    else JS.Math_floor (JSOps.orElse (y obj) 0 / 32).
Proof.
  intros Hs Hk Hsy.
  destruct (created_frames obj s _ Hs Hk) as (_ & Hob & Hst).
  destruct (created_placed obj s Hs) as [_ Hy].
  rewrite Hy in Hsy.
  unfold MapScene.depthSort.
  rewrite Hob, Hst.
  destruct (JSOps.strictEq (gid obj) 11185).
  - change MapScene.splitPoint with 666.4.
    now destruct (MapScene.playerY player <? 666.4).
  - destruct (stoneObject (gid obj)).
    + match goal with |- context [if ?c then _ else _] => destruct c end;
        reflexivity.
    + cbn [MapScene.setDepth MapScene.depth]; now rewrite Hsy.
Qed.

Lemma depth_by_gid_witness :
  MapScene.depth
    (MapScene.depthSort (Some (MapSceneSpec.actorAt 300))
       (showing "obelisk_tower5" (sprite obeliskSprite)))
  = 1000.
Proof.
  apply (depth_by_gid obeliskObject obeliskSprite
           (Some (MapSceneSpec.actorAt 300))
           (showing "obelisk_tower5" (sprite obeliskSprite))).
  - reflexivity.
  - cbn; auto 10.
  - reflexivity.
Defined.

End MapObjectsFacts.

(** ** The collision builder and the depth sorting: further properties *)

Module MapSceneMore.

Import MapScene MapSceneSpec MapSceneFacts MoreSpec FloatFacts.
Local Open Scope string_scope.
Local Open Scope list_scope.
Local Open Scope float_scope.

(** *** A point inside has vertices on both sides of its height *)

Lemma forallb_false_ex {A : Type} (f : A -> bool) (l : list A) :
  forallb f l = false -> exists a, In a l /\ f a = false.
Proof.
  induction l as [|a l IH]; cbn; [discriminate|].
  destruct (f a) eqn:Ha; cbn.
  - intros H; destruct (IH H) as (b & Hin & Hb); exists b; auto.
  - intros _; exists a; auto.
Qed.

Lemma edge_fold_same (px py : float) (polygon : list Point) (b : bool) :
  (forall v, In v polygon -> JS.gt (y v) py = b) ->
  forall (indices : list nat) (j : nat) (inside : bool),
    (forall i, In i indices -> (i < List.length polygon)%nat) ->
    indices = [] \/ (j < List.length polygon)%nat ->
    snd (fold_left (edgeStep px py polygon) indices (j, inside)) = inside.
Proof.
  intros Hall; induction indices as [|i rest IH]; intros j inside Hi Hj.
  - reflexivity.
  - destruct Hj as [Hj | Hj]; [discriminate|].
    assert (i < List.length polygon)%nat as Hlt by (apply Hi; now left).
    cbn [fold_left edgeStep]; unfold crosses.
    rewrite (Hall (nth i polygon origin)) by now apply nth_In.
    rewrite (Hall (nth j polygon origin)) by now apply nth_In.
    rewrite Bool.eqb_reflx; cbn [negb andb].
    apply IH; [intros k Hk; apply Hi; now right | now right].
Qed.

Lemma same_side_outside (px py : float) (polygon : list Point) (b : bool) :
  (forall v, In v polygon -> JS.gt (y v) py = b) ->
  isPointInPolygon px py polygon = false.
Proof.
  intros Hall; unfold isPointInPolygon.
  apply (edge_fold_same px py polygon b Hall).
  - intros i Hi; apply in_seq in Hi; lia.
  - destruct polygon as [|v rest]; [now left | right; cbn; lia].
Qed.

(** A point tests inside only when the polygon has a vertex strictly below
    it on the screen ([y] greater) and a vertex that is not: with no vertex,
    one vertex, or all vertices on one side of the point's height the answer
    is false, whatever the point's [x]. *)
Theorem inside_between_vertices (px py : float) (polygon : list Point) :
  isPointInPolygon px py polygon = true ->
  exists a b,
    In a polygon /\ In b polygon
    /\ JS.gt (y a) py = true /\ JS.gt (y b) py = false.
Proof.
  intros Hin.
  destruct (forallb (fun v => JS.gt (y v) py) polygon) eqn:Hup.
  - rewrite forallb_forall in Hup.
    rewrite (same_side_outside px py polygon true Hup) in Hin; discriminate.
  - destruct (forallb (fun v => negb (JS.gt (y v) py)) polygon) eqn:Hdown.
    + rewrite forallb_forall in Hdown.
      rewrite (same_side_outside px py polygon false) in Hin;
        [discriminate|].
      intros v Hv; apply negb_true_iff; now apply Hdown.
    + apply forallb_false_ex in Hup as (b & Hb & Hbf).
      apply forallb_false_ex in Hdown as (a & Ha & Haf).
      apply negb_false_iff in Haf.
      exists a, b; auto.
Qed.

Lemma inside_between_vertices_witness :
  exists a b,
    In a square /\ In b square
    /\ JS.gt (y a) 8 = true /\ JS.gt (y b) 8 = false.
Proof.
  apply (inside_between_vertices 8 8 square).
  reflexivity.
Defined.

(** *** Polygons without width *)

Lemma min_step_cases (lowest n : float) :
  JS.min_step lowest n = nan \/ JS.min_step lowest n = n
  \/ JS.min_step lowest n = lowest.
Proof.
  unfold JS.min_step.
  destruct (is_nan lowest || is_nan n); [auto|].
  destruct (is_zero n && get_sign n && is_zero lowest
            && negb (get_sign lowest)); [auto|].
  destruct (n <? lowest); auto.
Qed.

Lemma max_step_cases (highest n : float) :
  JS.max_step highest n = nan \/ JS.max_step highest n = n
  \/ JS.max_step highest n = highest.
Proof.
  unfold JS.max_step.
  destruct (is_nan highest || is_nan n); [auto|].
  destruct (is_zero n && negb (get_sign n) && is_zero highest
            && get_sign highest); [auto|].
  destruct (highest <? n); auto.
Qed.

Lemma fold_min_const (v : float) (l : list float) :
  (forall n, In n l -> n = v) ->
  forall start,
    fold_left JS.min_step l start = nan
    \/ fold_left JS.min_step l start = v
    \/ fold_left JS.min_step l start = start.
Proof.
  induction l as [|n l IH]; intros Hl start; cbn; [auto|].
  assert (n = v) as -> by (apply Hl; now left).
  assert (forall n, In n l -> n = v) as Hl'
    by (intros k Hk; apply Hl; now right).
  destruct (IH Hl' (JS.min_step start v)) as [H | [H | H]]; auto.
  rewrite H; destruct (min_step_cases start v) as [-> | [-> | ->]]; auto.
Qed.

Lemma fold_max_const (v : float) (l : list float) :
  (forall n, In n l -> n = v) ->
  forall start,
    fold_left JS.max_step l start = nan
    \/ fold_left JS.max_step l start = v
    \/ fold_left JS.max_step l start = start.
Proof.
  induction l as [|n l IH]; intros Hl start; cbn; [auto|].
  assert (n = v) as -> by (apply Hl; now left).
  assert (forall n, In n l -> n = v) as Hl'
    by (intros k Hk; apply Hl; now right).
  destruct (IH Hl' (JS.max_step start v)) as [H | [H | H]]; auto.
  rewrite H; destruct (max_step_cases start v) as [-> | [-> | ->]]; auto.
Qed.

Lemma nan_ltb (v : float) : (nan <? v) = false.
Proof. rewrite ltb_spec; reflexivity. Qed.

Lemma ltb_nan (v : float) : (v <? nan) = false.
Proof.
  rewrite ltb_spec; unfold SpecFloat.SFltb.
  change (Prim2SF nan) with S754_nan.
  now destruct (Prim2SF v).
Qed.

Lemma const_box_empty (v : float) (l : list float) :
  (forall n, In n l -> n = v) -> (JS.Math_min l <? JS.Math_max l) = false.
Proof.
  intros Hl; unfold JS.Math_min, JS.Math_max.
  destruct (fold_min_const v l Hl infinity) as [-> | [-> | ->]];
    [apply nan_ltb | | apply infinity_ltb].
  destruct (fold_max_const v l Hl neg_infinity) as [-> | [-> | ->]];
    [apply ltb_nan | apply ltb_irrefl | apply ltb_neg_infinity].
Qed.

(** A polygon whose vertices all have the same [x] gives no collision cell
    and the grid walk ends at once: this covers the polygon without
    vertices, the single point and the vertical segment. *)
Theorem no_width_no_cells (size : float) (fuel : nat) (points : list Point)
  (v : float) :
  (forall p, In p points -> x p = v) ->
  gridRects size (S fuel) points = ([], true).
Proof.
  intros Hx; unfold gridRects; cbn [forLoop].
  rewrite (const_box_empty v (map x points)); [reflexivity|].
  intros n Hn; apply in_map_iff in Hn as (p & <- & Hp); now apply Hx.
Qed.

Lemma no_width_no_cells_witness :
  gridRects 16 (S 0) [mkPoint 5 0; mkPoint 5 64] = ([], true).
Proof.
  apply (no_width_no_cells 16 0 [mkPoint 5 0; mkPoint 5 64] 5).
  intros p [<- | [<- | []]]; reflexivity.
Defined.

(** *** The cells lie on a grid anchored at the bounding box *)

Lemma advance_succ (n : nat) (v step : float) :
  advance (S n) v step = advance n v step + step.
Proof.
  revert v; induction n as [|n IH]; intros v; [reflexivity|].
  change (advance (S (S n)) v step) with (advance (S n) (v + step) step).
  now rewrite IH.
Qed.

Lemma forLoop_indexed {St : Type} (P : St -> Prop)
  (body : float -> St -> St * bool) (lo hi step : float) :
  (forall k s,
     (advance k lo step <? hi) = true -> P s ->
     P (fst (body (advance k lo step) s))) ->
  forall fuel k s,
    P s -> P (fst (forLoop fuel (advance k lo step) hi step body s)).
Proof.
  intros Hbody; induction fuel as [|fuel IH]; intros k s Hs; cbn [forLoop].
  - exact Hs.
  - destruct (advance k lo step <? hi) eqn:Hlt; [|exact Hs].
    specialize (Hbody k s Hlt Hs).
    destruct (body (advance k lo step) s) as [s' [|]]; cbn in Hbody;
      [|exact Hbody].
    rewrite <- advance_succ; now apply IH.
Qed.

(** Every cell of the grid walk sits a whole number of steps from the
    corner [(minX, minY)] of the polygon's bounding box, at a grid position
    that is still below [maxX] and [maxY], and its centre is half a cell
    further: the grid is anchored at the polygon, not at the tiles of the
    map. *)
Theorem cells_on_grid (size : float) (fuel : nat) (points : list Point)
  (c : Rectangle) :
  In c (fst (gridRects size fuel points)) ->
  exists kx ky,
    (advance kx (JS.Math_min (map x points)) size
     <? JS.Math_max (map x points)) = true
    /\ (advance ky (JS.Math_min (map y points)) size
        <? JS.Math_max (map y points)) = true
    /\ rect_x c = advance kx (JS.Math_min (map x points)) size + size / 2
    /\ rect_y c = advance ky (JS.Math_min (map y points)) size + size / 2.
Proof.
  set (minX := JS.Math_min (map x points)).
  set (maxX := JS.Math_max (map x points)).
  set (minY := JS.Math_min (map y points)).
  set (maxY := JS.Math_max (map y points)).
  set (P := fun rects : list Rectangle =>
              forall c, In c rects ->
                exists kx ky,
                  (advance kx minX size <? maxX) = true
                  /\ (advance ky minY size <? maxY) = true
                  /\ rect_x c = advance kx minX size + size / 2
                  /\ rect_y c = advance ky minY size + size / 2).
  assert (P (fst (gridRects size fuel points))) as HP;
    [|intros Hc; exact (HP c Hc)].
  unfold gridRects; fold minX maxX minY maxY.
  apply (forLoop_indexed P _ minX maxX size) with (k := O);
    [|intros c' []].
  intros kx rects Hkx Hrects.
  apply (forLoop_indexed P _ minY maxY size) with (k := O);
    [|exact Hrects].
  intros ky rects' Hky Hrects'; cbn [fst]; unfold pushCell.
  destruct (isPointInPolygon _ _ points); [|exact Hrects'].
  intros c' Hc'; apply in_app_or in Hc' as [Hc' | [<- | []]];
    [now apply Hrects'|].
  exists kx, ky; auto.
Qed.

Lemma cells_on_grid_witness :
  exists kx ky,
    (advance kx (JS.Math_min (map x square)) 16
     <? JS.Math_max (map x square)) = true
    /\ (advance ky (JS.Math_min (map y square)) 16
        <? JS.Math_max (map y square)) = true
    /\ rect_x (mkRectangle 24 8 16 16)
       = advance kx (JS.Math_min (map x square)) 16 + 16 / 2
    /\ rect_y (mkRectangle 24 8 16 16)
       = advance ky (JS.Math_min (map y square)) 16 + 16 / 2.
Proof.
  apply (cells_on_grid 16 5 square (mkRectangle 24 8 16 16)).
  vm_compute; auto.
Defined.

(** *** The objects of a layer are converted one after the other *)






(** *** Depth sorting settles in one pass *)

(** [update]'s depth sorting never moves or retextures a sprite, and sorting
    a sprite a second time against the same actor changes nothing: depth and
    alpha are a function of the texture key, the sprite's position and the
    actor's position alone (a sprite under the row rule keeps the alpha it
    had). *)
Theorem depthSort_settles (player : option Player.t) (sprite : Sprite) :
  texture_key (depthSort player sprite) = texture_key sprite
  /\ sprite_x (depthSort player sprite) = sprite_x sprite
  /\ sprite_y (depthSort player sprite) = sprite_y sprite
  /\ depthSort player (depthSort player sprite) = depthSort player sprite.
Proof.
  destruct sprite as [k sx sy d a]; unfold depthSort; cbn [texture_key].
  destruct (String.prefix "obelisk_tower" k) eqn:Hob.
  - destruct (playerY player <? splitPoint) eqn:Hy;
      cbn [setAlpha setDepth texture_key sprite_x sprite_y depth alpha];
      rewrite ?Hob, ?Hy; repeat split; reflexivity.
  - destruct (String.prefix "stone_sector" k) eqn:Hst.
    + cbn [setAlpha setDepth texture_key sprite_x sprite_y depth alpha].
      match goal with
      | |- context [if ?c then _ else _] => destruct c eqn:Hbox
      end;
        cbn [setAlpha setDepth texture_key sprite_x sprite_y depth alpha];
        rewrite ?Hob, ?Hst, ?Hbox; repeat split; reflexivity.
    + cbn [setAlpha setDepth texture_key sprite_x sprite_y depth alpha].
      rewrite ?Hob, ?Hst; repeat split; reflexivity.
Qed.

(** *** Who is drawn in front *)

(** One [update] of a scene with an actor runs the actor's own update first,
    gives the actor depth 200 and sorts every sprite of the depth-sorted
    group against the actor's position after that update.  The obelisk ends
    up in front of the actor exactly when the actor stands above the split
    line, behind it otherwise; a stone sector always ends up in front. *)
Theorem scene_draw_order (i : Player.Input) (sc : Scene) (p : Player.t)
  (s : Sprite) :
  player sc = Some p -> In s (depthSortedObjects sc) ->
  player (update i sc) = Some (Player.update i p)
  /\ playerDepth (update i sc) = 200
  /\ In (depthSort (Some (Player.update i p)) s)
       (depthSortedObjects (update i sc))
  /\ (String.prefix "obelisk_tower" (texture_key s) = true ->
      (playerDepth (update i sc)
       <? depth (depthSort (Some (Player.update i p)) s))
      = (Player.y (Player.update i p) <? 666.4))
  /\ (String.prefix "obelisk_tower" (texture_key s) = false ->
      String.prefix "stone_sector" (texture_key s) = true ->
      (playerDepth (update i sc)
       <? depth (depthSort (Some (Player.update i p)) s)) = true).
Proof.
  intros Hp Hs; unfold update; rewrite Hp; cbn [player playerDepth].
  cbn [depthSortedObjects].
  split; [reflexivity|]; split; [reflexivity|].
  split; [now apply in_map|].
  unfold depthSort; split.
  - intros ->; change splitPoint with 666.4; cbn [playerY].
    now destruct (Player.y (Player.update i p) <? 666.4).
  - intros -> ->.
    match goal with
    | |- context [if ?c then _ else _] => destruct c
    end; reflexivity.
Qed.

Lemma scene_draw_order_witness :
  player (update Player.noInput sceneAtSplit)
  = Some (Player.update Player.noInput (actorAt 666.4))
  /\ playerDepth (update Player.noInput sceneAtSplit) = 200
  /\ In (depthSort (Some (Player.update Player.noInput (actorAt 666.4)))
          obelisk)
       (depthSortedObjects (update Player.noInput sceneAtSplit))
  /\ (String.prefix "obelisk_tower" (texture_key obelisk) = true ->
      (playerDepth (update Player.noInput sceneAtSplit)
       <? depth (depthSort
                   (Some (Player.update Player.noInput (actorAt 666.4)))
                   obelisk))
      = (Player.y (Player.update Player.noInput (actorAt 666.4)) <? 666.4))
  /\ (String.prefix "obelisk_tower" (texture_key obelisk) = false ->
      String.prefix "stone_sector" (texture_key obelisk) = true ->
      (playerDepth (update Player.noInput sceneAtSplit)
       <? depth (depthSort
                   (Some (Player.update Player.noInput (actorAt 666.4)))
                   obelisk)) = true).
Proof.
  apply (scene_draw_order Player.noInput sceneAtSplit (actorAt 666.4)
           obelisk).
  - reflexivity.
  - left; reflexivity.
Defined.

End MapSceneMore.

(** ** The keyboard controls: proofs *)

Module MapControlsFacts.

Import MapControls MoreSpec FloatFacts.
Local Open Scope list_scope.
Local Open Scope float_scope.

Lemma press_app (keys keys' : list Key) (c : Controls) :
  press (keys ++ keys') c = press keys' (press keys c).
Proof. apply fold_left_app. Qed.

(** *** The zoom *)

Lemma zoomLevels_closed :
  forallb (fun z => memFloat (stepZoomIn z) zoomLevels
                    && memFloat (stepZoomOut z) zoomLevels) zoomLevels
  = true.
Proof. vm_compute; reflexivity. Qed.

Lemma zoomLevels_range :
  forallb (fun z => (1 <=? z) && (z <=? 4)) zoomLevels = true.
Proof. vm_compute; reflexivity. Qed.

Lemma zoomLevels_saturate :
  forallb (fun z => PrimFloat.Leibniz.eqb (Nat.iter 30 stepZoomIn z) 4
                    && PrimFloat.Leibniz.eqb (Nat.iter 30 stepZoomOut z) 1)
    zoomLevels
  = true.
Proof. vm_compute; reflexivity. Qed.

Lemma zoom_keyDown (k : Key) (c : Controls) :
  In (zoom c) zoomLevels -> In (zoom (keyDown k c)) zoomLevels.
Proof.
  intros Hz.
  pose proof zoomLevels_closed as Hc; rewrite forallb_forall in Hc.
  specialize (Hc _ Hz); apply andb_true_iff in Hc as [Hin Hout].
  destruct k; cbn [keyDown]; try exact Hz.
  - now apply memFloat_In.
  - now apply memFloat_In.
Qed.

Lemma zoom_press (keys : list Key) (c : Controls) :
  In (zoom c) zoomLevels -> In (zoom (press keys c)) zoomLevels.
Proof.
  revert c; induction keys as [|k keys IH]; intros c Hz; [exact Hz|].
  apply IH; now apply zoom_keyDown.
Qed.

Lemma zoom_repeat_PLUS (n : nat) (c : Controls) :
  zoom (press (repeat PLUS n) c) = Nat.iter n stepZoomIn (zoom c).
Proof.
  revert c; induction n as [|n IH]; intros c; [reflexivity|].
  cbn [repeat]; change (press (PLUS :: repeat PLUS n) c)
    with (press (repeat PLUS n) (zoomIn c)).
  rewrite IH; change (zoom (zoomIn c)) with (stepZoomIn (zoom c)).
  now rewrite Nat.iter_swap.
Qed.

Lemma zoom_repeat_MINUS (n : nat) (c : Controls) :
  zoom (press (repeat MINUS n) c) = Nat.iter n stepZoomOut (zoom c).
Proof.
  revert c; induction n as [|n IH]; intros c; [reflexivity|].
  cbn [repeat]; change (press (MINUS :: repeat MINUS n) c)
    with (press (repeat MINUS n) (zoomOut c)).
  rewrite IH; change (zoom (zoomOut c)) with (stepZoomOut (zoom c)).
  now rewrite Nat.iter_swap.
Qed.

(** Whatever keys are pressed after the scene is created, the camera zoom
    stays between 1 and 4; thirty presses of PLUS in a row bring it to 4
    exactly and thirty presses of MINUS to 1 exactly, from wherever it
    was. *)
Theorem zoom_in_range (keys : list Key) (nObjects nGraphics : nat)
  (hasLayer : bool) :
  (1 <=? zoom (press keys (created nObjects nGraphics hasLayer))) = true
  /\ (zoom (press keys (created nObjects nGraphics hasLayer)) <=? 4) = true
  /\ zoom (press (keys ++ repeat PLUS 30)
             (created nObjects nGraphics hasLayer)) = 4
  /\ zoom (press (keys ++ repeat MINUS 30)
             (created nObjects nGraphics hasLayer)) = 1.
Proof.
  assert (In (zoom (press keys (created nObjects nGraphics hasLayer)))
            zoomLevels) as Hz.
  { apply zoom_press; vm_compute; auto. }
  pose proof zoomLevels_range as Hr; rewrite forallb_forall in Hr.
  pose proof zoomLevels_saturate as Hs; rewrite forallb_forall in Hs.
  specialize (Hr _ Hz); specialize (Hs _ Hz).
  apply andb_true_iff in Hr as [Hlo Hhi].
  apply andb_true_iff in Hs as [Hup Hdown].
  apply FloatAxioms.Leibniz.eqb_spec in Hup, Hdown.
  rewrite !press_app, zoom_repeat_PLUS, zoom_repeat_MINUS; auto.
Qed.

(** *** The debug toggles *)

Lemma setVisible_repeat (v : bool) (l : list bool) :
  setVisible v l = repeat v (List.length l).
Proof.
  unfold setVisible; induction l as [|b l IH]; cbn; [reflexivity|].
  now rewrite IH.
Qed.

Lemma debug_keyDown (n : nat) (k : Key) (c : Controls) :
  collisionObjects c = repeat (debugCollisions c) n ->
  collisionObjects (keyDown k c) = repeat (debugCollisions (keyDown k c)) n
  /\ debugCollisions (keyDown k c)
     = xorb (isToggle k) (debugCollisions c)
  /\ List.length (debugGraphics (keyDown k c))
     = List.length (debugGraphics c)
  /\ debugShowBody (keyDown k c)
     = (debugShowBody c || pressedP [k]).
Proof.
  intros Hobj.
  assert (List.length (collisionObjects c) = n) as Hlen
    by (rewrite Hobj; apply repeat_length).
  destruct k; cbn [keyDown zoomIn zoomOut toggleCollisionDebug
                   toggleCollisionRectangles togglePhysicsDebug
                   collisionObjects debugCollisions debugGraphics
                   debugShowBody isToggle pressedP existsb xorb];
    rewrite ?setVisible_repeat, ?Hlen, ?repeat_length, ?orb_false_r,
      ?orb_true_r;
    repeat split; auto; now destruct (debugCollisions c).
Qed.

Lemma layer_press (keys : list Key) (c : Controls) :
  pressedP keys = false -> collisionLayer (press keys c) = collisionLayer c.
Proof.
  revert c; induction keys as [|k keys IH]; intros c Hp; [reflexivity|].
  change (press (k :: keys) c) with (press keys (keyDown k c)).
  cbn [pressedP existsb] in Hp; apply orb_false_iff in Hp as [Hk Hp].
  rewrite (IH _ Hp); now destruct k.
Qed.

Lemma debug_press (n : nat) (keys : list Key) (c : Controls) :
  collisionObjects c = repeat (debugCollisions c) n ->
  collisionObjects (press keys c) = repeat (debugCollisions (press keys c)) n
  /\ debugCollisions (press keys c)
     = xorb (Nat.odd (toggleCount keys)) (debugCollisions c)
  /\ List.length (debugGraphics (press keys c))
     = List.length (debugGraphics c)
  /\ debugShowBody (press keys c) = (debugShowBody c || pressedP keys).
Proof.
  revert c; induction keys as [|k keys IH]; intros c Hobj.
  - cbn; rewrite orb_false_r; auto.
  - destruct (debug_keyDown n k c Hobj) as (Hobj' & Hflag & Hlen & Hbody).
    change (press (k :: keys) c) with (press keys (keyDown k c)).
    destruct (IH (keyDown k c) Hobj') as (H1 & H2 & H3 & H4).
    split; [exact H1|].
    split; [|split].
    + rewrite H2, Hflag; unfold toggleCount; cbn [filter].
      destruct (isToggle k); cbn [List.length xorb]; [|reflexivity].
      rewrite Nat.odd_succ, <- Nat.negb_odd.
      now destruct (Nat.odd _), (debugCollisions c).
    + now rewrite H3.
    + rewrite H4, Hbody; cbn [pressedP existsb].
      now rewrite orb_false_r, orb_assoc.
Qed.

(** After any key sequence: the debug flag is on exactly when an odd number
    of C, P and R presses was made; every collision rectangle is visible
    exactly when the flag is on; no collision rectangle or debug graphic is
    added or removed; the actor's body outline is shown exactly when P was
    pressed at least once (no key switches it off again); and as long as P
    was not pressed the tile collision layer stays hidden. *)
Theorem debug_toggles (keys : list Key) (nObjects nGraphics : nat)
  (hasLayer : bool) :
  debugCollisions (press keys (created nObjects nGraphics hasLayer))
  = Nat.odd (toggleCount keys)
  /\ collisionObjects (press keys (created nObjects nGraphics hasLayer))
     = repeat (Nat.odd (toggleCount keys)) nObjects
  /\ List.length
       (debugGraphics (press keys (created nObjects nGraphics hasLayer)))
     = nGraphics
  /\ debugShowBody (press keys (created nObjects nGraphics hasLayer))
     = pressedP keys
  /\ (pressedP keys = false ->
      collisionLayer (press keys (created nObjects nGraphics hasLayer))
      = if hasLayer then Some false else None).
Proof.
  destruct (debug_press nObjects keys (created nObjects nGraphics hasLayer))
    as (H1 & H2 & H3 & H4); [reflexivity|].
  cbn [created debugCollisions debugGraphics debugShowBody] in H2, H3, H4.
  rewrite xorb_false_r in H2; rewrite H2 in H1.
  rewrite repeat_length in H3.
  repeat split; auto.
  intros Hp; now rewrite (layer_press keys _ Hp).
Qed.

End MapControlsFacts.
